(** * ncm2mp3: the NCM container decoder ([dump_ncm]) as a shallow embedding

    The development follows [src/ncm2mp3.py].  Byte strings ([bytes],
    [bytearray]) are lists of integers, Python exceptions are values of
    [exn] carried by the [result] monad, and the loops of the source are
    folds over [range].  *)

From stdpp Require Import gmap strings list.
From Equations Require Import Equations.

Local Open Scope Z_scope.

(** ** Exceptions and the error monad *)

Inductive exn : Type :=
| AssertionError
| IndexError
| ValueError
| StructError
| BinasciiError
| UnicodeDecodeError
| JSONDecodeError
| AttributeError
| FileNotFoundError
| IsADirectoryError
| UnicodeEncodeError.

Inductive result (A : Type) : Type :=
| Ok (a : A)
| Raise (e : exn).
Arguments Ok {A} a.
Arguments Raise {A} e.

#[global] Instance result_ret : MRet result := @Ok.
#[global] Instance result_bind : MBind result :=
  fun A B f m => match m with Ok a => f a | Raise e => Raise e end.

(** ** Byte sequences *)

Abbreviation len s := (Z.of_nat (length s)).

Definition is_byte (z : Z) : Prop := 0 ≤ z < 256.

#[global] Instance is_byte_dec z : Decision (is_byte z).
Proof. unfold is_byte. apply _. Defined.

(** [s[i]]: a negative index counts from the end, an index outside the
    sequence raises [IndexError]. *)
Definition getitem {A} (s : list A) (i : Z) : result A :=
  let k := if decide (i < 0) then i + len s else i in
  if decide (0 ≤ k) then
    match s !! Z.to_nat k with
    | Some x => Ok x
    | None => Raise IndexError
    end
  else Raise IndexError.

(** [b[i] = v] on a [bytearray]: the index is checked as in [getitem] and
    the value must be a byte ([ValueError] otherwise). *)
Definition setitem (s : list Z) (i v : Z) : result (list Z) :=
  let k := if decide (i < 0) then i + len s else i in
  if decide (0 ≤ k < len s) then
    if decide (is_byte v) then Ok (<[Z.to_nat k := v]> s) else Raise ValueError
  else Raise IndexError.

(** [s[:k]] and [s[k:]] with Python's clamping of the bounds. *)
Definition slice_to {A} (s : list A) (k : Z) : list A :=
  let stop := if decide (k < 0) then Z.max (len s + k) 0 else Z.min k (len s) in
  take (Z.to_nat stop) s.

Definition slice_from {A} (s : list A) (k : Z) : list A :=
  let start := if decide (k < 0) then Z.max (len s + k) 0 else Z.min k (len s) in
  drop (Z.to_nat start) s.

(** [range(a, b)] and a [for] loop over it whose body may raise. *)
Definition range (a b : Z) : list Z := seqZ a (b - a).

Fixpoint for_loop {S} (body : Z → S → result S) (idx : list Z) (s : S) : result S :=
  match idx with
  | [] => Ok s
  | i :: idx' => s' ← body i s; for_loop body idx' s'
  end.

(** ** The padding remover (line 98)

    [unpad = lambda s: s[:-(s[-1])]] on [bytes]. *)
Definition unpad (s : list Z) : result (list Z) :=
  n ← getitem s (-1);
  Ok (slice_to s (- n)).

(** In-place masking of a [bytearray] (lines 109-110 and 129-130):
    [for i in range(len(data)): data[i] ^= k]. *)
Definition xor_inplace (k : Z) (data : list Z) : result (list Z) :=
  for_loop (fun i d => x ← getitem d i; setitem d i (Z.lxor x k))
           (range 0 (len data)) data.

(** ** Key schedule (lines 115-124)

    The loop state is [(key_box, last, off)]; the source's [c] is assigned
    before it is read in every iteration and leaves the loop as [last].
    With an empty [key_data] the read [key_data[off]] raises before
    [% len(key_data)] is reached, so no division by zero is modelled. *)
Definition ksa_step (key_data : list Z) (i : Z) (st : list Z * Z * Z)
  : result (list Z * Z * Z) :=
  let '(key_box, last, off) := st in
  swap ← getitem key_box i;
  k ← getitem key_data off;
  let c := Z.land (swap + last + k) 0xFF in
  let off := (off + 1) `mod` len key_data in
  (* key_box[i], key_box[c] = key_box[c], key_box[i] *)
  x ← getitem key_box c;
  y ← getitem key_box i;
  key_box ← setitem key_box i x;
  key_box ← setitem key_box c y;
  Ok (key_box, c, off).

Definition build_key_box (key_data : list Z) : result (list Z) :=
  st ← for_loop (ksa_step key_data) (range 0 256) (seqZ 0 256, 0, 0);
  Ok st.1.1.

(** ** Audio decoding (lines 147-157)

    The state of the inner loop is the pair of the two mutable arrays in
    scope, [(key_box, chunk)]. *)
Definition decode_step (i : Z) (st : list Z * list Z) : result (list Z * list Z) :=
  let '(key_box, chunk) := st in
  let j := Z.land i 0xFF in
  a ← getitem key_box j;
  b ← getitem key_box j;
  t ← getitem key_box (Z.land (b + j) 0xFF);
  let idx := Z.land (a + t) 0xFF in
  x ← getitem chunk (i - 1);
  k ← getitem key_box idx;
  chunk ← setitem chunk (i - 1) (Z.lxor x k);
  Ok (key_box, chunk).

Definition decode_chunk (key_box chunk : list Z) : result (list Z * list Z) :=
  for_loop decode_step (range 1 (len chunk + 1)) (key_box, chunk).

(** [f.read(n)] on the bytes that remain after the cursor, and
    [f.seek(n, 1)], for [n >= 0] (the sizes are constants or unsigned
    32-bit fields). *)
Definition file_read (n : Z) (f : list Z) : list Z * list Z :=
  (take (Z.to_nat n) f, drop (Z.to_nat n) f).

Definition file_seek_cur (n : Z) (f : list Z) : list Z := drop (Z.to_nat n) f.

Definition inspect {A} (a : A) : {b : A | a = b} := exist _ a eq_refl.

(** The [while True] loop, for a read size [size] (the source reads
    [0x8000] bytes at a time): [f] is what remains of the input, [m] what
    has been written to the output so far.  The result pairs the outcome
    (the key box on normal exit) with the bytes written. *)
Equations? read_loop (size : Z) (key_box f m : list Z) : result (list Z) * list Z
  by wf (length f) lt :=
  read_loop size key_box f m with inspect (file_read size f) := {
    | exist _ ([], _) _ => (Ok key_box, m)
    | exist _ (x :: chunk, f') Hrd with decode_chunk key_box (x :: chunk) := {
        | Raise e => (Raise e, m)
        | Ok (key_box', chunk') => read_loop size key_box' f' (m ++ chunk') } }.
Proof.
  match goal with H : take _ _ = _ :: _ |- _ => rename H into Hc end.
  destruct (Z.to_nat size) as [|n]; [done|].
  destruct f as [|y f]; [done|]. rewrite length_drop. simpl. lia.
Qed.

Definition stream_audio (key_box f m : list Z) : result (list Z) * list Z :=
  read_loop 0x8000 key_box f m.

(** ** The decoder the specification warns against (section 4.4)

    The same loops with a position counter that keeps counting across
    chunks instead of restarting at 1: [base] is the number of bytes decoded
    in earlier chunks.  It is here only to be compared with [stream_audio]. *)
Definition decode_step_global (base i : Z) (st : list Z * list Z)
  : result (list Z * list Z) :=
  let '(key_box, chunk) := st in
  let j := Z.land (base + i) 0xFF in
  a ← getitem key_box j;
  b ← getitem key_box j;
  t ← getitem key_box (Z.land (b + j) 0xFF);
  let idx := Z.land (a + t) 0xFF in
  x ← getitem chunk (i - 1);
  k ← getitem key_box idx;
  chunk ← setitem chunk (i - 1) (Z.lxor x k);
  Ok (key_box, chunk).

Definition decode_chunk_global (base : Z) (key_box chunk : list Z)
  : result (list Z * list Z) :=
  for_loop (decode_step_global base) (range 1 (len chunk + 1)) (key_box, chunk).

Equations? read_loop_global (size base : Z) (key_box f m : list Z)
  : result (list Z) * list Z by wf (length f) lt :=
  read_loop_global size base key_box f m with inspect (file_read size f) := {
    | exist _ ([], _) _ => (Ok key_box, m)
    | exist _ (x :: chunk, f') Hrd
        with decode_chunk_global base key_box (x :: chunk) := {
        | Raise e => (Raise e, m)
        | Ok (key_box', chunk') =>
            read_loop_global size (base + len (x :: chunk)) key_box' f' (m ++ chunk') } }.
Proof.
  match goal with H : take _ _ = _ :: _ |- _ => rename H into Hc end.
  destruct (Z.to_nat size) as [|n]; [done|].
  destruct f as [|y f]; [done|]. rewrite length_drop. simpl. lia.
Qed.

Definition stream_audio_global (key_box f m : list Z) : result (list Z) * list Z :=
  read_loop_global 0x8000 0 key_box f m.

(** ** The keystream as the specification words it (section 4.4)

    These definitions follow the specification's sentences, with total
    reads of the table; they are compared with the loops above. *)
Definition table_at (table : list Z) (i : Z) : Z :=
  default 0 (table !! Z.to_nat i).

Definition swap_entries (table : list Z) (i c : Z) : list Z :=
  <[Z.to_nat c := table_at table i]> (<[Z.to_nat i := table_at table c]> table).

(** [(table, carry, keyOffset)] after the table indices [0 .. n-1]. *)
Fixpoint spec_schedule (seedKey : list Z) (n : nat) : list Z * Z * Z :=
  match n with
  | O => (seqZ 0 256, 0, 0)
  | S n' =>
      let '(table, carry, keyOffset) := spec_schedule seedKey n' in
      let i := Z.of_nat n' in
      let c := (table_at table i + carry + table_at seedKey keyOffset) `mod` 256 in
      let keyOffset' := (keyOffset + 1) `mod` len seedKey in
      (swap_entries table i c, c, keyOffset')
  end.

Definition spec_table (seedKey : list Z) : list Z := (spec_schedule seedKey 256).1.1.

Definition spec_keystream (table : list Z) (p : Z) : Z :=
  let j := p `mod` 256 in
  let idx := (table_at table j + table_at table ((table_at table j + j) `mod` 256)) `mod` 256 in
  table_at table idx.

(** The bytes [data] XORed with the keystream bytes of the positions [p],
    [p+1], ... *)
Fixpoint xor_keystream (table : list Z) (p : Z) (data : list Z) : list Z :=
  match data with
  | [] => []
  | x :: data' => Z.lxor x (spec_keystream table p) :: xor_keystream table (p + 1) data'
  end.

(** ** Text, JSON values and the file system

    A Python [str] is the list of its code points; [py] reads an ASCII
    literal (also used for ASCII [bytes] literals). *)
Abbreviation str := (list Z).

Definition py (s : string) : str :=
  (fun a => Z.of_N (Ascii.N_of_ascii a)) <$> String.list_ascii_of_string s.

(** What [json.loads] returns.  A float is kept only up to whether it is
    non-zero, the one observation the decoder makes of it. *)
#[warnings="-register-all"]
Inductive pyval : Type :=
| PyNone
| PyBool (b : bool)
| PyInt (n : Z)
| PyFloat (nonzero : bool)
| PyStr (s : str)
| PyList (l : list pyval)
| PyDict (d : gmap str pyval).

(** [bool(v)], as [or] tests it. *)
Definition truthy (v : pyval) : bool :=
  match v with
  | PyNone => false
  | PyBool b => b
  | PyInt n => bool_decide (n ≠ 0)
  | PyFloat nonzero => nonzero
  | PyStr s => bool_decide (s ≠ [])
  | PyList l => match l with [] => false | _ => true end
  | PyDict d => bool_decide (size d ≠ 0%nat)
  end.

(** [obj.get(key, dflt)]: only a [dict] has the method. *)
Definition py_get (obj : pyval) (key : str) (dflt : pyval) : result pyval :=
  match obj with
  | PyDict d => Ok (default dflt (d !! key))
  | _ => Raise AttributeError
  end.

(** The library functions the decoder calls and this repository does not
    define.  The theorems hold for every implementation of them; a
    reference implementation for concrete runs is given further down. *)
Class Library := {
  (** [AES.new(key, AES.MODE_ECB).decrypt(data)] *)
  aes_ecb_decrypt : list Z → list Z → result (list Z);
  (** [base64.b64decode(data)] *)
  b64decode : list Z → result (list Z);
  (** [data.decode("utf-8")] *)
  utf8_decode : list Z → result str;
  (** [json.loads(text)] *)
  json_loads : str → result pyval;
  (** [s.lower()] and [s.strip()] on a [str] *)
  str_lower : str → str;
  str_strip : str → str;
  (** [os.path.splitext(path)[0]] *)
  splitext_root : str → str;
  (** [open(path, "wb")]: the exception it raises, if it raises
      ([ValueError] for a path with a NUL character, [FileNotFoundError]
      for a directory that does not exist, [IsADirectoryError], ...).  The
      directories are no part of the file map; the decoder creates none,
      so whether a path can be opened for writing is fixed during a run. *)
  open_wb : str → option exn;
  (** lines 163-178: download of the cover to a temporary file, tagging of
      the MP3 and removal of the temporary file, every exception caught
      ([except Exception], [except OSError]); the arguments are the URL
      and the audio path. *)
  cover_art : str → str → gmap str (list Z) → gmap str (list Z)
}.

(** [v.lower()] and [v.strip()]: only a [str] has the methods. *)
Definition py_lower `{Library} (v : pyval) : result str :=
  match v with PyStr s => Ok (str_lower s) | _ => Raise AttributeError end.

Definition py_strip `{Library} (v : pyval) : result str :=
  match v with PyStr s => Ok (str_strip s) | _ => Raise AttributeError end.

Fixpoint endswith (s suffix : str) : bool :=
  bool_decide (s = suffix) ||
  match s with [] => false | _ :: s' => endswith s' suffix end.

(** The files by path, and the cover-art retrievals made so far (their
    URLs, latest last). *)
Record world := World {
  fs : gmap str (list Z);
  covers : list str
}.

(** ** [binascii] and [struct] *)

Definition hex_digit (n : Z) : Z := if decide (n < 10) then 48 + n else 87 + n.

Definition b2a_hex (b : list Z) : list Z :=
  b ≫= fun x => [hex_digit (x `div` 16); hex_digit (x `mod` 16)].

Definition unhex_digit (c : Z) : option Z :=
  if decide (48 ≤ c ≤ 57) then Some (c - 48)
  else if decide (97 ≤ c ≤ 102) then Some (c - 87)
  else if decide (65 ≤ c ≤ 70) then Some (c - 55)
  else None.

Fixpoint a2b_hex (s : list Z) : result (list Z) :=
  match s with
  | [] => Ok []
  | [_] => Raise BinasciiError
  | a :: b :: s' =>
      match unhex_digit a, unhex_digit b with
      | Some x, Some y => r ← a2b_hex s'; Ok (16 * x + y :: r)
      | _, _ => Raise BinasciiError
      end
  end.

(** [struct.unpack("<I", b)[0]] *)
Definition unpack_u32 (b : list Z) : result Z :=
  match b with
  | [b0; b1; b2; b3] => Ok (b0 + 256 * b1 + 65536 * b2 + 16777216 * b3)
  | _ => Raise StructError
  end.

Definition py_assert (b : bool) : result unit :=
  if b then Ok () else Raise AssertionError.

(** ** The stages of [dump_ncm] before the output is opened *)

Definition core_key_hex : list Z := py "687A4852416D736F356B496E62617857".
Definition meta_key_hex : list Z := py "2331346C6A6B5F215C5D2630553C2728".
Definition magic_hex : list Z := py "4354454e4644414d".

(** Lines 109-112: the seed key from the key block. *)
Definition recover_key `{Library} (core_key key_data : list Z) : result (list Z) :=
  key_data ← xor_inplace 0x64 key_data;
  plain ← aes_ecb_decrypt core_key key_data;
  plain ← unpad plain;
  Ok (slice_from plain 17).

(** Lines 101-124: header check, key block, key box.  Returns the key box
    and what remains of the input. *)
Definition read_key_box `{Library} (core_key f : list Z) : result (list Z * list Z) :=
  let '(header, f) := file_read 8 f in
  _ ← py_assert (bool_decide (b2a_hex header = magic_hex));
  let f := file_seek_cur 2 f in
  let '(b, f) := file_read 4 f in
  key_length ← unpack_u32 b;
  let '(key_data, f) := file_read key_length f in
  key_data ← recover_key core_key key_data;
  key_box ← build_key_box key_data;
  Ok (key_box, f).

(** Lines 127-128: the raw metadata block. *)
Definition read_meta_block (f : list Z) : result (list Z * list Z) :=
  let '(b, f) := file_read 4 f in
  meta_length ← unpack_u32 b;
  Ok (file_read meta_length f).

(** Lines 129-133: the metadata from its block. *)
Definition recover_meta `{Library} (meta_key meta_data : list Z) : result pyval :=
  meta_data ← xor_inplace 0x63 meta_data;
  meta_data ← b64decode (slice_from meta_data 22);
  meta_raw ← aes_ecb_decrypt meta_key meta_data;
  plain ← unpad meta_raw;
  text ← utf8_decode plain;
  json_loads (slice_from text 6).

(** Lines 136-139: checksum, gap and embedded cover are skipped. *)
Definition skip_cover (f : list Z) : result (list Z) :=
  let '(_, f) := file_read 4 f in
  let f := file_seek_cur 5 f in
  let '(b, f) := file_read 4 f in
  img_size ← unpack_u32 b;
  Ok (file_read img_size f).2.

(** Lines 142-144: the output path with the extension of the metadata. *)
Definition choose_output `{Library} (meta : pyval) (output_fp : str) : result str :=
  fmt ← py_get meta (py "format") (PyStr (py "mp3"));
  ext ← py_lower fmt;
  if endswith (str_lower output_fp) (py "." ++ ext) then Ok output_fp
  else Ok (splitext_root output_fp ++ py "." ++ ext).

(** Lines 101-144: everything [dump_ncm] does with the open input before
    it opens the output.  Returns the key box, the metadata, the audio
    payload that remains to be read and the final output path. *)
Definition before_output `{Library} (core_key meta_key f : list Z) (output_fp : str)
  : result (list Z * pyval * list Z * str) :=
  '(key_box, f) ← read_key_box core_key f;
  '(meta_data, f) ← read_meta_block f;
  meta ← recover_meta meta_key meta_data;
  f ← skip_cover f;
  output_fp ← choose_output meta output_fp;
  Ok (key_box, meta, f, output_fp).

(** Line 160: [(meta.get("albumPic") or "").strip()] *)
Definition cover_url_of `{Library} (meta : pyval) : result str :=
  v ← py_get meta (py "albumPic") PyNone;
  py_strip (if truthy v then v else PyStr []).

(** ** [dump_ncm] (lines 91-182)

    The state is the [world]; a raised exception leaves the world as it is
    at that point. *)
Definition M (A : Type) : Type := world → result A * world.

#[global] Instance M_ret : MRet M := fun A a w => (Ok a, w).
#[global] Instance M_bind : MBind M :=
  fun A B f m w =>
    match m w with
    | (Ok a, w') => f a w'
    | (Raise e, w') => (Raise e, w')
    end.

Definition lift {A} (r : result A) : M A := fun w => (r, w).

(** [open(path, "rb")] and reading: the handle is the content the file
    has when it is opened, from the cursor on.  (This is exact as long as
    the output is not opened at the very path of the input, which would
    truncate the file that is being read.) *)
Definition open_rb (path : str) : M (list Z) :=
  fun w =>
    match fs w !! path with
    | Some content => (Ok content, w)
    | None => (Raise FileNotFoundError, w)
    end.

(** Lines 147-157: [open(output_fp, "wb")] raises and changes nothing, or
    it creates or truncates the file; every [m.write(chunk)] appends to
    it; when the [with] block is left, normally or by an exception, the
    file holds what was written. *)
Definition write_audio `{Library} (output_fp : str) (key_box f : list Z) : M unit :=
  fun w =>
    match open_wb output_fp with
    | Some e => (Raise e, w)
    | None =>
        let w := World (<[output_fp := []]> (fs w)) (covers w) in
        let '(r, written) := stream_audio key_box f [] in
        let w := World (<[output_fp := written]> (fs w)) (covers w) in
        (_ ← r; Ok (), w)
    end.

(** Lines 161-180: with a non-empty URL the cover is retrieved, best
    effort; without one only a warning is issued. *)
Definition cover_stage `{Library} (cover_url output_fp : str) : M unit :=
  fun w =>
    if bool_decide (cover_url ≠ []) then
      (Ok (), World (cover_art cover_url output_fp (fs w)) (covers w ++ [cover_url]))
    else (Ok (), w).

Definition dump_ncm `{Library} (input_fp output_fp : str) : M str :=
  core_key ← lift (a2b_hex core_key_hex);
  meta_key ← lift (a2b_hex meta_key_hex);
  f ← open_rb input_fp;
  '(key_box, meta, f, output_fp) ← lift (before_output core_key meta_key f output_fp);
  _ ← write_audio output_fp key_box f;
  cover_url ← lift (cover_url_of meta);
  _ ← cover_stage cover_url output_fp;
  mret output_fp.

(** ** A reference implementation of the library

    Used to run the decoder on concrete containers.  AES-128 follows
    FIPS 197 (the two keys of the format are 16 bytes long). *)
Module Reference.

Definition sbox : list Z := [
    99; 124; 119; 123; 242; 107; 111; 197; 48; 1; 103; 43; 254; 215; 171;
    118; 202; 130; 201; 125; 250; 89; 71; 240; 173; 212; 162; 175; 156;
    164; 114; 192; 183; 253; 147; 38; 54; 63; 247; 204; 52; 165; 229; 241;
    113; 216; 49; 21; 4; 199; 35; 195; 24; 150; 5; 154; 7; 18; 128; 226;
    235; 39; 178; 117; 9; 131; 44; 26; 27; 110; 90; 160; 82; 59; 214; 179;
    41; 227; 47; 132; 83; 209; 0; 237; 32; 252; 177; 91; 106; 203; 190; 57;
    74; 76; 88; 207; 208; 239; 170; 251; 67; 77; 51; 133; 69; 249; 2; 127;
    80; 60; 159; 168; 81; 163; 64; 143; 146; 157; 56; 245; 188; 182; 218;
    33; 16; 255; 243; 210; 205; 12; 19; 236; 95; 151; 68; 23; 196; 167;
    126; 61; 100; 93; 25; 115; 96; 129; 79; 220; 34; 42; 144; 136; 70; 238;
    184; 20; 222; 94; 11; 219; 224; 50; 58; 10; 73; 6; 36; 92; 194; 211;
    172; 98; 145; 149; 228; 121; 231; 200; 55; 109; 141; 213; 78; 169; 108;
    86; 244; 234; 101; 122; 174; 8; 186; 120; 37; 46; 28; 166; 180; 198;
    232; 221; 116; 31; 75; 189; 139; 138; 112; 62; 181; 102; 72; 3; 246;
    14; 97; 53; 87; 185; 134; 193; 29; 158; 225; 248; 152; 17; 105; 217;
    142; 148; 155; 30; 135; 233; 206; 85; 40; 223; 140; 161; 137; 13; 191;
    230; 66; 104; 65; 153; 45; 15; 176; 84; 187; 22 ].

Definition sub_byte (b : Z) : Z := default 0 (sbox !! Z.to_nat b).

Definition inv_sbox : list Z :=
  Eval vm_compute in
    (fun y => default 0 ((fun p => Z.of_nat p.1) <$> list_find (eq y) sbox))
      <$> seqZ 0 256.

Definition inv_sub_byte (b : Z) : Z := default 0 (inv_sbox !! Z.to_nat b).

Definition xtime (b : Z) : Z :=
  if decide (2 * b < 256) then 2 * b else Z.lxor (2 * b - 256) 0x1b.

Fixpoint gmul_aux (n : nat) (a b acc : Z) : Z :=
  match n with
  | O => acc
  | S n' => gmul_aux n' (xtime a) (b `div` 2) (if Z.odd b then Z.lxor acc a else acc)
  end.

Definition gmul (a b : Z) : Z := gmul_aux 8 a b 0.

Definition xor_bytes (a b : list Z) : list Z := zip_with Z.lxor a b.

(** The next round key from the previous one. *)
Definition next_round_key (rk : list Z) (rcon : Z) : list Z :=
  let w0 := take 4 rk in
  let w1 := take 4 (drop 4 rk) in
  let w2 := take 4 (drop 8 rk) in
  let w3 := take 4 (drop 12 rk) in
  let t := xor_bytes (sub_byte <$> rotate 1 w3) [rcon; 0; 0; 0] in
  let w0' := xor_bytes w0 t in
  let w1' := xor_bytes w1 w0' in
  let w2' := xor_bytes w2 w1' in
  let w3' := xor_bytes w3 w2' in
  w0' ++ w1' ++ w2' ++ w3'.

Fixpoint expand_key (rk : list Z) (rcons : list Z) : list (list Z) :=
  match rcons with
  | [] => [rk]
  | rcon :: rcons' => rk :: expand_key (next_round_key rk rcon) rcons'
  end.

Definition round_keys (key : list Z) : list (list Z) :=
  expand_key key [0x01; 0x02; 0x04; 0x08; 0x10; 0x20; 0x40; 0x80; 0x1b; 0x36].

(** The state is the block itself: byte [4c + r] is row [r], column [c]. *)
Definition inv_shift_rows (st : list Z) : list Z :=
  (fun k => let r := k `mod` 4 in let c := k `div` 4 in
            table_at st (4 * ((c - r) `mod` 4) + r)) <$> seqZ 0 16.

Definition inv_mix_column (col : list Z) : list Z :=
  let a := table_at col in
  let mix k0 k1 k2 k3 :=
    Z.lxor (Z.lxor (gmul (a 0) k0) (gmul (a 1) k1))
           (Z.lxor (gmul (a 2) k2) (gmul (a 3) k3)) in
  [mix 14 11 13 9; mix 9 14 11 13; mix 13 9 14 11; mix 11 13 9 14].

Definition inv_mix_columns (st : list Z) : list Z :=
  inv_mix_column (take 4 st) ++ inv_mix_column (take 4 (drop 4 st)) ++
  inv_mix_column (take 4 (drop 8 st)) ++ inv_mix_column (take 4 (drop 12 st)).

Definition inv_round (st rk : list Z) : list Z :=
  inv_mix_columns (xor_bytes (inv_sub_byte <$> inv_shift_rows st) rk).

Definition aes128_decrypt_block (key block : list Z) : list Z :=
  match reverse (round_keys key) with
  | last_rk :: rks =>
      let st := xor_bytes block last_rk in
      let st := foldl inv_round st (take 9 rks) in
      xor_bytes (inv_sub_byte <$> inv_shift_rows st) (default [] (rks !! 9%nat))
  | [] => []
  end.

Fixpoint ecb_blocks (n : nat) (key data : list Z) : list Z :=
  match n with
  | O => []
  | S n' => aes128_decrypt_block key (take 16 data) ++ ecb_blocks n' key (drop 16 data)
  end.

(** [ValueError] for a key that is not 16 bytes long (the 24- and 32-byte
    keys of AES are not implemented here) and for data that is not a whole
    number of blocks. *)
Definition aes_ecb_decrypt (key data : list Z) : result (list Z) :=
  if decide (length key = 16%nat) then
    if decide (len data `mod` 16 = 0) then Ok (ecb_blocks (length data / 16) key data)
    else Raise ValueError
  else Raise ValueError.

(** [binascii.a2b_base64] as [base64.b64decode] calls it (not strict):
    bytes outside the alphabet are skipped, a complete pad sequence ends
    the decoding, an unfinished quad raises [binascii.Error]. *)
Definition b64_value (c : Z) : option Z :=
  if decide (65 ≤ c ≤ 90) then Some (c - 65)
  else if decide (97 ≤ c ≤ 122) then Some (c - 71)
  else if decide (48 ≤ c ≤ 57) then Some (c + 4)
  else if decide (c = 43) then Some 62
  else if decide (c = 47) then Some 63
  else None.

Fixpoint b64_scan (data : list Z) (quad_pos leftchar pads : Z) (out : list Z)
  : result (list Z) :=
  match data with
  | [] => if decide (quad_pos = 0) then Ok out else Raise BinasciiError
  | c :: data' =>
      if decide (c = 61) then
        if decide (2 ≤ quad_pos) then
          if decide (4 ≤ quad_pos + (pads + 1)) then Ok out
          else b64_scan data' quad_pos leftchar (pads + 1) out
        else b64_scan data' quad_pos leftchar pads out
      else
        match b64_value c with
        | None => b64_scan data' quad_pos leftchar pads out
        | Some v =>
            if decide (quad_pos = 0) then b64_scan data' 1 v 0 out
            else if decide (quad_pos = 1) then
              b64_scan data' 2 (Z.land v 0x0f) 0
                (out ++ [Z.lor (Z.shiftl leftchar 2) (Z.shiftr v 4)])
            else if decide (quad_pos = 2) then
              b64_scan data' 3 (Z.land v 0x03) 0
                (out ++ [Z.lor (Z.shiftl leftchar 4) (Z.shiftr v 2)])
            else b64_scan data' 0 0 0 (out ++ [Z.lor (Z.shiftl leftchar 6) v])
        end
  end.

Definition b64decode (data : list Z) : result (list Z) := b64_scan data 0 0 0 [].

(** Strict UTF-8: no overlong forms, no surrogates, nothing above
    U+10FFFF. *)
Definition is_cont (c : Z) : bool := bool_decide (0x80 ≤ c ≤ 0xBF).

Fixpoint utf8_decode (b : list Z) : result str :=
  match b with
  | [] => Ok []
  | c :: r =>
      if decide (c < 0x80) then t ← utf8_decode r; Ok (c :: t)
      else if decide (0xC2 ≤ c ≤ 0xDF) then
        match r with
        | c1 :: r1 =>
            if is_cont c1 then
              t ← utf8_decode r1; Ok ((c - 0xC0) * 64 + (c1 - 0x80) :: t)
            else Raise UnicodeDecodeError
        | _ => Raise UnicodeDecodeError
        end
      else if decide (0xE0 ≤ c ≤ 0xEF) then
        match r with
        | c1 :: c2 :: r2 =>
            if is_cont c1 && is_cont c2
               && bool_decide (c = 0xE0 → 0xA0 ≤ c1)
               && bool_decide (c = 0xED → c1 ≤ 0x9F) then
              t ← utf8_decode r2;
              Ok (((c - 0xE0) * 64 + (c1 - 0x80)) * 64 + (c2 - 0x80) :: t)
            else Raise UnicodeDecodeError
        | _ => Raise UnicodeDecodeError
        end
      else if decide (0xF0 ≤ c ≤ 0xF4) then
        match r with
        | c1 :: c2 :: c3 :: r3 =>
            if is_cont c1 && is_cont c2 && is_cont c3
               && bool_decide (c = 0xF0 → 0x90 ≤ c1)
               && bool_decide (c = 0xF4 → c1 ≤ 0x8F) then
              t ← utf8_decode r3;
              Ok ((((c - 0xF0) * 64 + (c1 - 0x80)) * 64 + (c2 - 0x80)) * 64
                  + (c3 - 0x80) :: t)
            else Raise UnicodeDecodeError
        | _ => Raise UnicodeDecodeError
        end
      else Raise UnicodeDecodeError
  end.

(** [str.lower] on the ASCII letters (other code points are left as they
    are) and [str.strip] with the white space of [str.isspace]. *)
Definition str_lower (s : str) : str :=
  (fun c => if decide (65 ≤ c ≤ 90) then c + 32 else c) <$> s.

Definition is_space (c : Z) : bool :=
  bool_decide (9 ≤ c ≤ 13 ∨ 28 ≤ c ≤ 32 ∨ c = 0x85 ∨ c = 0xA0 ∨ c = 0x1680 ∨
               0x2000 ≤ c ≤ 0x200A ∨ c = 0x2028 ∨ c = 0x2029 ∨ c = 0x202F ∨
               c = 0x205F ∨ c = 0x3000).

Fixpoint lstrip (s : str) : str :=
  match s with
  | c :: s' => if is_space c then lstrip s' else s
  | [] => []
  end.

Definition str_strip (s : str) : str := reverse (lstrip (reverse (lstrip s))).

(** [posixpath.splitext(path)[0]]: the extension starts at the last dot of
    the last path component, unless only dots precede it there. *)
Fixpoint last_index (c : Z) (s : str) (i : nat) : option nat :=
  match s with
  | [] => None
  | x :: s' =>
      match last_index c s' (S i) with
      | Some k => Some k
      | None => if decide (x = c) then Some i else None
      end
  end.

Definition splitext_root (path : str) : str :=
  let name_start := default 0%nat (S <$> last_index 47 path 0) in
  match last_index 46 path 0 with
  | Some dot =>
      if decide (name_start ≤ dot)%nat then
        if forallb (fun c => bool_decide (c = 46)) (take (dot - name_start) (drop name_start path))
        then path else take dot path
      else path
  | None => path
  end.

(** [json.loads] on a [str], after the C scanner of CPython.  Numbers use
    ASCII digits; a number with a fraction or an exponent is a float, zero
    when its digits are all zero or when it is at most [2^-1075].  The
    recursion limit and the limit on the digits of an integer are not
    represented. *)
Definition is_ws (c : Z) : bool := bool_decide (c = 32 ∨ c = 9 ∨ c = 10 ∨ c = 13).

Fixpoint skip_ws (s : str) : str :=
  match s with
  | c :: s' => if is_ws c then skip_ws s' else s
  | [] => []
  end.

Fixpoint strip_prefix (p s : str) : option str :=
  match p, s with
  | [], _ => Some s
  | a :: p', b :: s' => if decide (a = b) then strip_prefix p' s' else None
  | _ :: _, [] => None
  end.

Definition is_digit (c : Z) : bool := bool_decide (48 ≤ c ≤ 57).

Fixpoint span_digits (s : str) : str * str :=
  match s with
  | c :: s' =>
      if is_digit c then let '(d, r) := span_digits s' in (c :: d, r) else ([], s)
  | [] => ([], [])
  end.

Definition digits_value (d : str) : Z := foldl (fun acc c => 10 * acc + (c - 48)) 0 d.

Definition hex4 (s : str) : option (Z * str) :=
  match s with
  | a :: b :: c :: d :: r =>
      x ← unhex_digit a; y ← unhex_digit b; z ← unhex_digit c; w ← unhex_digit d;
      Some (((x * 16 + y) * 16 + z) * 16 + w, r)
  | _ => None
  end.

Definition unescape (e : Z) : option Z :=
  if decide (e = 34 ∨ e = 92 ∨ e = 47) then Some e
  else if decide (e = 98) then Some 8
  else if decide (e = 102) then Some 12
  else if decide (e = 110) then Some 10
  else if decide (e = 114) then Some 13
  else if decide (e = 116) then Some 9
  else None.

(** The characters of a string up to its closing quote. *)
Fixpoint scan_string (fuel : nat) (s acc : str) : option (str * str) :=
  match fuel with
  | O => None
  | S fuel' =>
      match s with
      | [] => None
      | c :: r =>
          if decide (c = 34) then Some (acc, r)
          else if decide (c = 92) then
            match r with
            | [] => None
            | e :: r' =>
                if decide (e = 117) then
                  '(hi, r1) ← hex4 r';
                  if decide (0xD800 ≤ hi ≤ 0xDBFF) then
                    match r1 with
                    | 92 :: 117 :: r2 =>
                        '(lo, r3) ← hex4 r2;
                        if decide (0xDC00 ≤ lo ≤ 0xDFFF) then
                          scan_string fuel' r3
                            (acc ++ [0x10000 + (hi - 0xD800) * 1024 + (lo - 0xDC00)])
                        else scan_string fuel' r1 (acc ++ [hi])
                    | _ => scan_string fuel' r1 (acc ++ [hi])
                    end
                  else scan_string fuel' r1 (acc ++ [hi])
                else x ← unescape e; scan_string fuel' r' (acc ++ [x])
            end
          else if decide (c ≤ 0x1f) then None
          else scan_string fuel' r (acc ++ [c])
      end
  end.

Definition float_nonzero (mantissa exp10 : Z) : bool :=
  bool_decide (mantissa ≠ 0) &&
  negb (bool_decide (exp10 < 0 ∧ mantissa * 2 ^ 1075 ≤ 10 ^ (- exp10))).

Definition scan_number (s : str) : option (pyval * str) :=
  let '(neg, s1) := match s with
                    | c :: r => if decide (c = 45) then (true, r) else (false, s)
                    | [] => (false, s)
                    end in
  '(int_digits, s2) ←
    match s1 with
    | c :: r =>
        if decide (c = 48) then Some ([c], r)
        else if is_digit c then Some (span_digits s1)
        else None
    | [] => None
    end;
  let '(frac_digits, s3) :=
    match s2 with
    | c :: r =>
        if decide (c = 46) then
          match span_digits r with
          | ([], _) => ([], s2)
          | (d, r') => (d, r')
          end
        else ([], s2)
    | [] => ([], s2)
    end in
  let '(exp, s4) :=
    match s3 with
    | c :: r =>
        if decide (c = 101 ∨ c = 69) then
          let '(sign, r') := match r with
                             | x :: r' =>
                                 if decide (x = 45) then (-1, r')
                                 else if decide (x = 43) then (1, r') else (1, r)
                             | [] => (1, r)
                             end in
          match span_digits r' with
          | ([], _) => (None, s3)
          | (d, r'') => (Some (sign * digits_value d), r'')
          end
        else (None, s3)
    | [] => (None, s3)
    end in
  match frac_digits, exp with
  | [], None =>
      Some (PyInt (if neg then - digits_value int_digits else digits_value int_digits), s4)
  | _, _ =>
      Some (PyFloat (float_nonzero (digits_value (int_digits ++ frac_digits))
                       (default 0 exp - len frac_digits)), s4)
  end.

Fixpoint scan_once (fuel : nat) (s : str) : option (pyval * str) :=
  match fuel with
  | O => None
  | S fuel' =>
      match s with
      | [] => None
      | c :: r =>
          if decide (c = 34) then
            '(t, r') ← scan_string (length s) r []; Some (PyStr t, r')
          else if decide (c = 123) then
            match skip_ws r with
            | x :: r' =>
                if decide (x = 125) then Some (PyDict ∅, r')
                else scan_members fuel' (skip_ws r) ∅
            | [] => None
            end
          else if decide (c = 91) then
            match skip_ws r with
            | x :: r' =>
                if decide (x = 93) then Some (PyList [], r')
                else scan_items fuel' (skip_ws r) []
            | [] => None
            end
          else
            match strip_prefix (py "null") s, strip_prefix (py "true") s,
                  strip_prefix (py "false") s with
            | Some r', _, _ => Some (PyNone, r')
            | _, Some r', _ => Some (PyBool true, r')
            | _, _, Some r' => Some (PyBool false, r')
            | None, None, None =>
                match strip_prefix (py "NaN") s, strip_prefix (py "Infinity") s,
                      strip_prefix (py "-Infinity") s with
                | Some r', _, _ | _, Some r', _ | _, _, Some r' => Some (PyFloat true, r')
                | None, None, None => scan_number s
                end
            end
      end
  end
with scan_members (fuel : nat) (s : str) (d : gmap str pyval) : option (pyval * str) :=
  match fuel with
  | O => None
  | S fuel' =>
      match s with
      | c :: r =>
          if decide (c = 34) then
            '(k, r1) ← scan_string (length s) r [];
            match skip_ws r1 with
            | colon :: r2 =>
                if decide (colon = 58) then
                  '(v, r3) ← scan_once fuel' (skip_ws r2);
                  match skip_ws r3 with
                  | x :: r4 =>
                      if decide (x = 125) then Some (PyDict (<[k := v]> d), r4)
                      else if decide (x = 44) then
                        scan_members fuel' (skip_ws r4) (<[k := v]> d)
                      else None
                  | [] => None
                  end
                else None
            | [] => None
            end
          else None
      | [] => None
      end
  end
with scan_items (fuel : nat) (s : str) (acc : list pyval) : option (pyval * str) :=
  match fuel with
  | O => None
  | S fuel' =>
      '(v, r1) ← scan_once fuel' s;
      match skip_ws r1 with
      | x :: r2 =>
          if decide (x = 93) then Some (PyList (acc ++ [v]), r2)
          else if decide (x = 44) then scan_items fuel' (skip_ws r2) (acc ++ [v])
          else None
      | [] => None
      end
  end.

Definition json_loads (s : str) : result pyval :=
  match scan_once (2 * length s + 2) (skip_ws s) with
  | Some (v, r) => if decide (skip_ws r = []) then Ok v else Raise JSONDecodeError
  | None => Raise JSONDecodeError
  end.

(** No cover can be retrieved (no network): the download fails after its
    retries, the exception is caught and the files stay as they are. *)
Definition cover_art (cover_url output_fp : str) (files : gmap str (list Z))
  : gmap str (list Z) := files.

(** Every directory exists: opening for writing fails on a NUL
    character, on the empty path and on a path that names a directory. *)
Definition open_wb (path : str) : option exn :=
  if bool_decide (0 ∈ path) then Some ValueError
  else if bool_decide (path = []) then Some FileNotFoundError
  else if bool_decide (last path = Some 47) then Some IsADirectoryError
  else None.

#[export] Instance library : Library :=
  Build_Library aes_ecb_decrypt b64decode utf8_decode json_loads
                str_lower str_strip splitext_root open_wb cover_art.

End Reference.

(** ** Constants of the format and the key recovery as the specification
    words it (section 4.3) *)
Definition core_key : list Z :=
  [0x68; 0x7A; 0x48; 0x52; 0x41; 0x6D; 0x73; 0x6F;
   0x35; 0x6B; 0x49; 0x6E; 0x62; 0x61; 0x78; 0x57].

Definition meta_key : list Z :=
  [0x23; 0x31; 0x34; 0x6C; 0x6A; 0x6B; 0x5F; 0x21;
   0x5C; 0x5D; 0x26; 0x30; 0x55; 0x3C; 0x27; 0x28].

Definition magic : list Z := py "CTENFDAM".

(** The padding remover as section 4.2 words it: the last byte of the
    buffer is the pad length [n], the result is [buffer[0 : len(buffer) - n]],
    and the removal fails when there is no last byte, when [n] is 0 and
    when [n] exceeds the length of the buffer. *)
Definition spec_remove_pad (buffer : list Z) : option (list Z) :=
  n ← last buffer;
  if decide (1 ≤ n ≤ len buffer)
  then Some (take (length buffer - Z.to_nat n) buffer)
  else None.

(** XOR every byte with [0x64], ECB-decrypt with the core key, remove the
    padding, discard the first 17 bytes; a failure of the primitive or of
    the padding remover is a failure of the recovery. *)
Definition spec_seed_key `{Library} (key_block : list Z) : option (list Z) :=
  match aes_ecb_decrypt core_key ((fun b => Z.lxor b 0x64) <$> key_block) with
  | Ok plain => unpadded ← spec_remove_pad plain; Some (drop 17 unpadded)
  | Raise _ => None
  end.

(** A key block whose plaintext is [neteasecloudmus] followed by a byte
    0: a pad length of 0. *)
Definition key_block_zero_pad : list Z :=
  [22; 145; 194; 131; 94; 80; 205; 172; 140; 106; 223; 15; 204; 35; 152; 150].

(** ** Example containers

    Each has the magic, a key block that holds the seed key [TESTKEY!]
    behind the 17-byte prefix, an empty thumbnail and three or four bytes
    of audio.  [container_no_meta] has a metadata block of length 0,
    [container_bad_cover] the metadata [{"albumPic":1}] and
    [container_flac] the metadata [{"format":"flac","albumPic":""}]. *)
Definition container_no_meta : list Z := [
    67; 84; 69; 78; 70; 68; 65; 77; 1; 112; 32; 0; 0; 0; 44; 206; 213; 235;
    105; 234; 251; 20; 85; 13; 69; 191; 97; 221; 23; 29; 188; 236; 96; 7;
    95; 89; 220; 77; 128; 90; 248; 95; 246; 52; 92; 215; 0; 0; 0; 0; 0; 0;
    0; 0; 0; 0; 0; 0; 0; 0; 0; 0; 0; 54; 111; 141 ].


Definition container_flac : list Z := [
    67; 84; 69; 78; 70; 68; 65; 77; 1; 112; 32; 0; 0; 0; 44; 206; 213; 235;
    105; 234; 251; 20; 85; 13; 69; 191; 97; 221; 23; 29; 188; 236; 96; 7;
    95; 89; 220; 77; 128; 90; 248; 95; 246; 52; 92; 215; 86; 0; 0; 0; 82;
    85; 80; 67; 8; 6; 26; 75; 39; 12; 13; 68; 23; 67; 14; 12; 7; 10; 5; 26;
    74; 89; 0; 38; 4; 23; 18; 43; 27; 20; 19; 7; 49; 40; 0; 33; 32; 49; 51;
    33; 15; 51; 8; 17; 83; 7; 11; 12; 37; 20; 2; 85; 5; 91; 47; 9; 57; 39;
    18; 43; 87; 57; 5; 20; 16; 33; 2; 26; 38; 39; 55; 53; 86; 72; 1; 58;
    22; 86; 46; 82; 27; 10; 84; 83; 85; 50; 0; 0; 0; 0; 0; 0; 0; 0; 0; 0;
    0; 0; 0; 25; 103; 223; 3 ].

(** Two more containers: [container_empty_key] has a key block that holds
    the 17-byte prefix and nothing after it, [container_null_format] the
    metadata [{"format":null}]. *)
Definition container_empty_key : list Z := [
    67; 84; 69; 78; 70; 68; 65; 77; 1; 112; 32; 0; 0; 0; 44; 206; 213; 235;
    105; 234; 251; 20; 85; 13; 69; 191; 97; 221; 23; 29; 54; 127; 55; 31;
    194; 187; 176; 161; 199; 70; 183; 81; 27; 64; 99; 107; 0; 0; 0; 0; 0;
    0; 0; 0; 0; 0; 0; 0; 0; 0; 0; 0; 0; 73; 68; 51 ].

Definition container_null_format : list Z := [
    67; 84; 69; 78; 70; 68; 65; 77; 1; 112; 32; 0; 0; 0; 44; 206; 213; 235;
    105; 234; 251; 20; 85; 13; 69; 191; 97; 221; 23; 29; 188; 236; 96; 7;
    95; 89; 220; 77; 128; 90; 248; 95; 246; 52; 92; 215; 66; 0; 0; 0; 82;
    85; 80; 67; 8; 6; 26; 75; 39; 12; 13; 68; 23; 67; 14; 12; 7; 10; 5; 26;
    74; 89; 0; 38; 4; 23; 18; 43; 27; 20; 19; 7; 49; 40; 0; 33; 32; 49; 51;
    33; 15; 51; 8; 4; 23; 59; 8; 57; 11; 45; 2; 39; 34; 9; 91; 49; 57; 8;
    82; 19; 85; 27; 21; 2; 20; 94; 0; 0; 0; 0; 0; 0; 0; 0; 0; 0; 0; 0; 0;
    54; 111; 141 ].

(** A file system that holds one container, at [in.ncm]. *)
Definition world_of (container : list Z) : world :=
  World {[ py "in.ncm" := container ]} [].

(** ** The cover download ([download_pic], lines 32-57)

    The exceptions of the outer functions: those of the decoder, those of
    [requests], and the two [download_pic] raises itself. *)
Inductive http_error : Type :=
| ConnectionError
| Timeout
| HTTPError
| ChunkedEncodingError.

Inductive exc : Type :=
| Decoder (e : exn)
| Http (e : http_error)
| RuntimeError (cause : exc)
| TypeError
| OverflowError
| TagError.

(** What the session answers to one [SESSION.get(url, stream=True)]:
    the call raises, or it returns a response: whether
    [raise_for_status] passes, the [Content-Type] header if there is one,
    the chunks [iter_content] yields and the error it then raises, if
    any. *)
Record response := Response {
  status_ok : bool;
  content_type : option str;
  body : list (list Z);
  body_error : option http_error
}.

Inductive reply : Type :=
| GetRaises (e : http_error)
| GetReturns (r : response).

(** The files, the number of requests made so far and the naps taken
    between attempts: [time.sleep(backoff ** attempt)], with the default
    [backoff] of 2.0 that every call of the repository uses, is recorded
    by its exponent [attempt]. *)
Record net_state := NetState {
  files : gmap str (list Z);
  requests : nat;
  slept : list Z
}.

(** [s.split(sep)[0]] *)
Fixpoint split_first (sep : Z) (s : str) : str :=
  match s with
  | [] => []
  | c :: s' => if decide (c = sep) then [] else c :: split_first sep s'
  end.

(** Lines 46-48: [for chunk in r.iter_content(..): if chunk: f.write(chunk)]. *)
Definition write_chunks (tmp : str) (chunks : list (list Z))
    (fs : gmap str (list Z)) : gmap str (list Z) :=
  foldl (fun fs chunk =>
           if bool_decide (chunk ≠ []) then alter (fun old => old ++ chunk) tmp fs
           else fs)
        fs chunks.

(** [os.replace(src, dst)] *)
Definition os_replace (src dst : str) (fs : gmap str (list Z))
  : exc + gmap str (list Z) :=
  match fs !! src with
  | Some content => inr (<[dst := content]> (delete src fs))
  | None => inl (Decoder FileNotFoundError)
  end.

(** One pass through the [try] block (lines 41-50): the exception it
    raises or the MIME type it returns, and the files after it.  The
    [.part] file is taken to be writable: its [open(tmp, "wb")] does not
    raise. *)
Definition try_download `{Library} (r : reply) (save_fn : str)
    (fs : gmap str (list Z)) : (exc + str) * gmap str (list Z) :=
  match r with
  | GetRaises e => (inl (Http e), fs)
  | GetReturns r =>
      if status_ok r then
        let mime := str_lower (str_strip (split_first 59 (default [] (content_type r)))) in
        let tmp := save_fn ++ py ".part" in
        let fs := write_chunks tmp (body r) (<[tmp := []]> fs) in
        match body_error r with
        | Some e => (inl (Http e), fs)
        | None =>
            match os_replace tmp save_fn fs with
            | inr fs' => (inr mime, fs')
            | inl e => (inl e, fs)
            end
        end
      else (inl (Http HTTPError), fs)
  end.

(** [time.sleep] takes no more than 2^63 - 1 nanoseconds: [2.0 ** 33]
    seconds are slept, [2.0 ** attempt] from 34 on makes it raise
    [OverflowError] (and from 1024 on the power itself does). *)
Definition nap_limit : Z := 34.

(** The [for attempt in range(1, retries + 1)] loop and the [raise
    last_exc] behind it.  [session_get url n] is the answer to the [n]-th
    request of the session.  An exception of the nap is raised inside the
    handler and leaves the function. *)
Fixpoint download_loop `{Library} (session_get : str → nat → reply)
    (url save_fn : str) (retries : Z) (attempts : list Z) (last_exc : option exc)
    (st : net_state) : (exc + str) * net_state :=
  match attempts with
  | [] => (inl (default TypeError last_exc), st)
  | attempt :: attempts' =>
      let '(r, fs) := try_download (session_get url (requests st)) save_fn (files st) in
      let st := NetState fs (S (requests st)) (slept st) in
      match r with
      | inr mime => (inr mime, st)
      | inl e =>
          if decide (attempt < retries) then
            if decide (attempt < nap_limit) then
              download_loop session_get url save_fn retries attempts' (Some e)
                (NetState (files st) (requests st) (slept st ++ [attempt]))
            else (inl OverflowError, st)
          else (inl (RuntimeError e), st)
      end
  end.

Definition download_pic `{Library} (session_get : str → nat → reply)
    (url save_fn : str) (retries : Z) (st : net_state) : (exc + str) * net_state :=
  download_loop session_get url save_fn retries (range 1 (retries + 1)) None st.

(** The exception one attempt ends in, read off the answer: [None] when
    the attempt returns. *)
Definition reply_error (r : reply) : option exc :=
  match r with
  | GetRaises e => Some (Http e)
  | GetReturns r => if status_ok r then Http <$> body_error r else Some (Http HTTPError)
  end.

(** ** The cover tag ([add_cover_2_mp3], lines 64-84)

    What [eyed3] does is a parameter: [eyed3_load] is [eyed3.load(path)]
    (an exception, [None] or an audio object), [eyed3_embed] is lines
    79-84 on that object once the picture has been read ([initTag] when
    there is no tag, [images.set(3, data, mime)], [tag.save()]): an
    exception or the new content of the audio file. *)
Class Eyed3 := {
  audio_file : Type;
  eyed3_load : str → gmap str (list Z) → exc + option audio_file;
  eyed3_embed : audio_file → list Z → str → exc + list Z
}.

Inductive warning : Type :=
| UnsupportedCover (mime_type : str)
| CannotLoad (mp3_fp : str)
| CoverFailed (e : exc)
| NoCoverUrl.

Definition add_cover_2_mp3 `{Library} `{Eyed3} (mp3_fp pic_fp mime_type : str)
    (fs : gmap str (list Z)) : (exc + unit) * gmap str (list Z) * list warning :=
  if negb (endswith (str_lower mp3_fp) (py ".mp3")) then (inr (), fs, [])
  else if negb (bool_decide
                  (mime_type ∈ [py "image/jpeg"; py "image/jpg"; py "image/png"]))
  then (inr (), fs, [UnsupportedCover mime_type])
  else
    match eyed3_load mp3_fp fs with
    | inl e => (inl e, fs, [])
    | inr None => (inr (), fs, [CannotLoad mp3_fp])
    | inr (Some audio) =>
        match fs !! pic_fp with
        | None => (inl (Decoder FileNotFoundError), fs, [])
        | Some data =>
            match eyed3_embed audio data mime_type with
            | inl e => (inl e, fs, [])
            | inr content => (inr (), <[mp3_fp := content]> fs, [])
            end
        end
    end.

(** ** The cover stage of [dump_ncm] in full (lines 161-180)

    [os.path] and [mimetypes] are parameters. *)
Class OsPath := {
  basename : str → str;
  dirname : str → str;
  path_join : str → str → str;
  (** [mimetypes.guess_extension(type)] *)
  guess_extension : str → option str
}.

(** Lines 163-167 *)
Definition cover_tmp_file `{OsPath} (cover_url output_fp : str) : str :=
  let tmp_ext :=
    match guess_extension (split_first 63 cover_url) with
    | Some ext => if bool_decide (ext ≠ []) then ext else py ".img"
    | None => py ".img"
    end in
  path_join (dirname output_fp) (py ".cover_" ++ basename output_fp ++ tmp_ext).

(** Lines 168-178: [try] download and tag, [except Exception] warn,
    [finally] remove the temporary file if it exists. *)
Definition cover_handling `{Library} `{Eyed3} `{OsPath}
    (session_get : str → nat → reply) (cover_url output_fp : str)
    (st : net_state) : net_state * list warning :=
  let tmp_file := cover_tmp_file cover_url output_fp in
  let '(r, st) := download_pic session_get cover_url tmp_file 3 st in
  let '(fs, warnings) :=
    match r with
    | inl e => (files st, [CoverFailed e])
    | inr mime =>
        let '(r', fs, warnings) := add_cover_2_mp3 output_fp tmp_file mime (files st) in
        match r' with
        | inl e => (fs, warnings ++ [CoverFailed e])
        | inr _ => (fs, warnings)
        end
    end in
  (NetState (delete tmp_file fs) (requests st) (slept st), warnings).

(** Lines 161-180: without a URL only a warning is issued. *)
Definition cover_step `{Library} `{Eyed3} `{OsPath}
    (session_get : str → nat → reply) (cover_url output_fp : str)
    (st : net_state) : net_state * list warning :=
  if bool_decide (cover_url ≠ []) then cover_handling session_get cover_url output_fp st
  else (st, [NoCoverUrl]).

(** ** One conversion ([_convert_one], lines 189-212)

    [cpu] holds the values [psutil.cpu_percent] returns before it raises
    (none when [psutil] cannot be imported); a machine that stays above the
    threshold for ever keeps the call waiting and is not represented.  The
    result is the returned flag, the world, the number of half-second naps
    and what was printed (the path and the exception). *)
Fixpoint throttle_naps (max_cpu_percent : Z) (cpu : list Qcanon.Qc) : nat :=
  match cpu with
  | [] => 0
  | reading :: cpu' =>
      if decide (Qcanon.Qclt (Qc_of_Z max_cpu_percent) reading)
      then S (throttle_naps max_cpu_percent cpu')
      else 0
  end.

Definition _convert_one `{Library} `{OsPath} (ncm_path out_dir : str)
    (max_cpu_percent : Z) (cpu : list Qcanon.Qc) (w : world)
  : bool * world * nat * list (str * exn) :=
  let base := basename ncm_path in
  if negb (endswith (str_lower base) (py ".ncm")) then (false, w, 0%nat, [])
  else
    let out_fp := path_join out_dir (splitext_root base ++ py ".mp3") in
    let naps := throttle_naps max_cpu_percent cpu in
    match dump_ncm ncm_path out_fp w with
    | (Ok _, w') => (true, w', naps, [])
    | (Raise e, w') => (false, w', naps, [(ncm_path, e)])
    end.

(** Reference implementations: [posixpath], a [mimetypes] that knows no
    type, and an [eyed3] that recognises no file. *)
Module ReferenceOs.

Definition basename (path : str) : str :=
  drop (default 0%nat (S <$> Reference.last_index 47 path 0)) path.

(** [posixpath.dirname]: the head up to the last slash, without trailing
    slashes unless it consists of slashes only. *)
Fixpoint rstrip_slashes (rev_head : str) : str :=
  match rev_head with
  | c :: rest => if decide (c = 47) then rstrip_slashes rest else rev_head
  | [] => []
  end.

Definition dirname (path : str) : str :=
  let head := take (default 0%nat (S <$> Reference.last_index 47 path 0)) path in
  if forallb (fun c => bool_decide (c = 47)) head then head
  else reverse (rstrip_slashes (reverse head)).

(** [posixpath.join(a, b)] *)
Definition path_join (a b : str) : str :=
  match b with
  | 47 :: _ => b
  | _ =>
      if bool_decide (a = []) || bool_decide (last a = Some 47) then a ++ b
      else a ++ py "/" ++ b
  end.

#[export] Instance os_path : OsPath :=
  Build_OsPath basename dirname path_join (fun _ => None).

#[export] Instance eyed3 : Eyed3 :=
  Build_Eyed3 unit (fun _ _ => inr None) (fun _ _ _ => inl TagError).

(** An [eyed3] that loads every file there is and writes the picture in
    front of the audio. *)
Definition tagging_eyed3 : Eyed3 :=
  Build_Eyed3 (list Z)
    (fun path fs =>
       match fs !! path with
       | Some content => inr (Some content)
       | None => inl (Decoder FileNotFoundError)
       end)
    (fun audio data _ => inr (data ++ audio)).

End ReferenceOs.

(** Reduce a bind whose first computation has returned. *)
Ltac bind_ok := change (Ok ?v ≫= ?f) with (f v); cbv beta.

(** Closed decidable facts, by evaluation. *)
Ltac by_compute :=
  match goal with
  | |- ?P => refine (bool_decide_unpack P _); vm_compute; exact I
  end.

(** ** Theorems *)

Lemma getitem_last {A} (s : list A) :
  getitem s (-1) = match last s with Some x => Ok x | None => Raise IndexError end.
Proof.
  unfold getitem. cbv zeta. rewrite (decide_True (P := -1 < 0)) by lia.
  destruct s as [|a s']; [done|]. set (s := a :: s').
  assert (0 < length s)%nat by (subst s; simpl; lia).
  rewrite decide_True by lia.
  rewrite last_lookup.
  replace (Z.to_nat (-1 + len s)) with (Nat.pred (length s)) by lia.
  by destruct (s !! Nat.pred (length s)).
Qed.

Lemma land_255 x : Z.land x 0xFF = x `mod` 256.
Proof. change 0xFF with (Z.ones 8). by rewrite Z.land_ones. Qed.

Lemma lxor_byte a b : is_byte a → is_byte b → is_byte (Z.lxor a b).
Proof.
  unfold is_byte. intros [Ha Ha'] [Hb Hb']. split; [by apply Z.lxor_nonneg|].
  destruct (decide (Z.lxor a b = 0)) as [->|Hne]; [done|].
  assert (0 < Z.lxor a b) by (pose proof (proj2 (Z.lxor_nonneg a b)); lia).
  change 256 with (2 ^ 8). apply Z.log2_lt_pow2; [done|].
  pose proof (Z.log2_lxor a b Ha Hb).
  assert (Z.log2 a < 8).
  { destruct (decide (a = 0)) as [->|]; [done|]. apply Z.log2_lt_pow2; lia. }
  assert (Z.log2 b < 8).
  { destruct (decide (b = 0)) as [->|]; [done|]. apply Z.log2_lt_pow2; lia. }
  lia.
Qed.

Lemma getitem_lookup {A} (s : list A) i x :
  0 ≤ i → s !! Z.to_nat i = Some x → getitem s i = Ok x.
Proof.
  intros Hi Hx. unfold getitem. cbv zeta.
  rewrite (decide_False (P := i < 0)) by lia.
  rewrite decide_True by done. by rewrite Hx.
Qed.

Lemma setitem_insert s i v :
  0 ≤ i < len s → is_byte v → setitem s i v = Ok (<[Z.to_nat i := v]> s).
Proof.
  intros Hi Hv. unfold setitem. cbv zeta.
  rewrite (decide_False (P := i < 0)) by lia.
  rewrite decide_True by done. by rewrite decide_True.
Qed.

Lemma for_loop_cons {S} (body : Z → S → result S) i l s :
  for_loop body (i :: l) s = s' ← body i s; for_loop body l s'.
Proof. done. Qed.

Lemma for_loop_app {S} (body : Z → S → result S) l1 l2 s :
  for_loop body (l1 ++ l2) s = s' ← for_loop body l1 s; for_loop body l2 s'.
Proof.
  revert s. induction l1 as [|i l1 IH]; intros s; simpl; [done|].
  destruct (body i s) as [s'|e]; simpl; [apply IH|done].
Qed.

Lemma table_at_lookup table i :
  0 ≤ i < len table → table !! Z.to_nat i = Some (table_at table i).
Proof.
  intros Hi. unfold table_at.
  destruct (lookup_lt_is_Some_2 table (Z.to_nat i)) as [x Hx]; [lia|].
  by rewrite Hx.
Qed.

Lemma getitem_table table i :
  0 ≤ i < len table → getitem table i = Ok (table_at table i).
Proof. intros Hi. apply getitem_lookup; [lia|]. by apply table_at_lookup. Qed.

Lemma table_at_byte table i :
  Forall is_byte table → 0 ≤ i < len table → is_byte (table_at table i).
Proof.
  intros Hb Hi. rewrite Forall_lookup in Hb.
  apply (Hb (Z.to_nat i)). by apply table_at_lookup.
Qed.

(** *** The inner decoding loop *)

Section Table.

(** A key box as the key schedule leaves it: 256 bytes. *)
Context (key_box : list Z).
Hypothesis Hlen : length key_box = 256%nat.
Hypothesis Hbytes : Forall is_byte key_box.

Lemma table_index_ok x : 0 ≤ x `mod` 256 < len key_box.
Proof. rewrite Hlen. apply Z.mod_pos_bound. lia. Qed.

Lemma spec_keystream_byte p : is_byte (spec_keystream key_box p).
Proof.
  unfold spec_keystream. apply table_at_byte; [done|apply table_index_ok].
Qed.

Lemma decode_step_ok pre x todo :
  is_byte x →
  decode_step (len pre + 1) (key_box, pre ++ x :: todo)
  = Ok (key_box, pre ++ Z.lxor x (spec_keystream key_box (len pre + 1)) :: todo).
Proof.
  intros Hx. unfold decode_step, spec_keystream. cbv zeta.
  rewrite (land_255 (len pre + 1)). set (j := (len pre + 1) `mod` 256).
  rewrite (getitem_table key_box j) by apply table_index_ok. do 2 bind_ok.
  set (a := table_at key_box j).
  rewrite land_255, (getitem_table key_box) by apply table_index_ok. bind_ok.
  replace (len pre + 1 - 1) with (len pre) by lia.
  rewrite (getitem_lookup (pre ++ x :: todo) (len pre) x);
    [|lia|by rewrite Nat2Z.id, list_lookup_middle].
  bind_ok. rewrite land_255, (getitem_table key_box) by apply table_index_ok. bind_ok.
  rewrite setitem_insert;
    [|rewrite length_app; simpl length; lia
     |apply lxor_byte; [done|apply table_at_byte; [done|apply table_index_ok]]].
  bind_ok. by rewrite Nat2Z.id, insert_app_r_alt, Nat.sub_diag by lia.
Qed.

Lemma decode_loop pre todo :
  Forall is_byte todo →
  for_loop decode_step (seqZ (len pre + 1) (len todo)) (key_box, pre ++ todo)
  = Ok (key_box, pre ++ xor_keystream key_box (len pre + 1) todo).
Proof.
  revert pre. induction todo as [|x todo IH]; intros pre Htodo; [done|].
  apply Forall_cons in Htodo as [Hx Htodo].
  rewrite seqZ_cons by (simpl length; lia). rewrite for_loop_cons.
  rewrite decode_step_ok by done. bind_ok.
  set (y := Z.lxor x (spec_keystream key_box (len pre + 1))).
  specialize (IH (pre ++ [y]) Htodo).
  rewrite length_app in IH. simpl length in IH.
  replace (Z.succ (len pre + 1)) with (Z.of_nat (length pre + 1) + 1) by lia.
  replace (Z.pred (len (x :: todo))) with (len todo) by (simpl length; lia).
  rewrite <- !(assoc_L (++) pre [y]) in IH.
  change ([y] ++ todo) with (y :: todo) in IH. rewrite IH.
  simpl xor_keystream. subst y.
  by replace (Z.of_nat (length pre + 1) + 1) with (len pre + 1 + 1) by lia.
Qed.

Lemma decode_chunk_ok chunk :
  Forall is_byte chunk →
  decode_chunk key_box chunk = Ok (key_box, xor_keystream key_box 1 chunk).
Proof.
  intros Hc. unfold decode_chunk, range.
  replace (len chunk + 1 - 1) with (len chunk) by lia.
  exact (decode_loop [] chunk Hc).
Qed.

Lemma xor_keystream_byte p data :
  Forall is_byte data → Forall is_byte (xor_keystream key_box p data).
Proof.
  revert p. induction data as [|x data IH]; intros p Hd; simpl; [done|].
  apply Forall_cons in Hd as [Hx Hd]. constructor; [|by apply IH].
  apply lxor_byte; [done|apply spec_keystream_byte].
Qed.

End Table.

Lemma xor_keystream_length table p data :
  length (xor_keystream table p data) = length data.
Proof. revert p. induction data as [|x data IH]; intros p; simpl; [done|]. by rewrite IH. Qed.

Lemma xor_keystream_lookup table p data (k : nat) x :
  data !! k = Some x →
  xor_keystream table p data !! k = Some (Z.lxor x (spec_keystream table (p + Z.of_nat k))).
Proof.
  revert p k. induction data as [|y data IH]; intros p k Hk; [done|].
  destruct k as [|k]; simpl in *.
  - injection Hk as ->. by rewrite Z.add_0_r.
  - rewrite (IH (p + 1) k Hk). do 3 f_equal. lia.
Qed.

Lemma xor_keystream_app table p d1 d2 :
  xor_keystream table p (d1 ++ d2)
  = xor_keystream table p d1 ++ xor_keystream table (p + len d1) d2.
Proof.
  revert p. induction d1 as [|x d1 IH]; intros p; simpl.
  - by rewrite Z.add_0_r.
  - rewrite IH. do 3 f_equal. lia.
Qed.

(** *** The read loop *)

Lemma spec_keystream_period table p k :
  spec_keystream table (p + 256 * k) = spec_keystream table p.
Proof.
  unfold spec_keystream. by rewrite (Z.mul_comm 256 k), Z_mod_plus_full.
Qed.

Lemma xor_keystream_period table p k data :
  xor_keystream table (p + 256 * k) data = xor_keystream table p data.
Proof.
  revert p. induction data as [|x data IH]; intros p; simpl; [done|].
  rewrite spec_keystream_period. f_equal.
  replace (p + 256 * k + 1) with (p + 1 + 256 * k) by lia. apply IH.
Qed.

Lemma read_loop_ok size key_box f m :
  0 < size → (256 | size) →
  length key_box = 256%nat → Forall is_byte key_box → Forall is_byte f →
  read_loop size key_box f m = (Ok key_box, m ++ xor_keystream key_box 1 f).
Proof.
  funelim (read_loop size key_box f m); intros Hsize Hdiv Hlen Hkb Hf.
  - destruct f as [|y f]; [by rewrite app_nil_r|].
    destruct (Z.to_nat size) eqn:E; [lia|done].
  - assert (Forall is_byte (x :: chunk)) as Hc.
    { rewrite <- e'. by apply Forall_take. }
    rewrite decode_chunk_ok in Heq by done. injection Heq as <- <-.
    rewrite H by (try apply Forall_drop; done).
    rewrite <- (take_drop (Z.to_nat size) f) at 2.
    rewrite xor_keystream_app, e', <- (assoc_L (++)). do 3 f_equal.
    destruct (drop (Z.to_nat size) f) as [|z rest] eqn:Hd; [done|].
    assert (length (x :: chunk) = Z.to_nat size) as ->.
    { rewrite <- e'. apply length_take_le.
      destruct (decide (Z.to_nat size ≤ length f)%nat); [done|].
      rewrite drop_ge in Hd by lia. done. }
    destruct Hdiv as [q ->]. rewrite Z2Nat.id by lia.
    by rewrite (Z.mul_comm q 256), xor_keystream_period.
  - assert (Forall is_byte (x :: chunk)) as Hc.
    { rewrite <- e'. by apply Forall_take. }
    rewrite decode_chunk_ok in Heq by done. done.
Qed.

(** *** The key schedule *)

Lemma insert_head_Permutation {A} (l : list A) j x y :
  l !! j = Some y → y :: <[j := x]> l ≡ₚ x :: l.
Proof.
  revert j. induction l as [|a l IH]; intros [|j] Hj; simplify_eq/=.
  - apply perm_swap.
  - rewrite (perm_swap a y), (IH j Hj). apply perm_swap.
Qed.

Lemma swap_Permutation {A} (l : list A) i j x y :
  l !! i = Some x → l !! j = Some y → <[j := x]> (<[i := y]> l) ≡ₚ l.
Proof.
  revert i j. induction l as [|a l IH]; intros [|i] [|j] Hi Hj; simplify_eq/=.
  - done.
  - by apply insert_head_Permutation.
  - by apply insert_head_Permutation.
  - by rewrite (IH i j Hi Hj).
Qed.

Definition ksa_inv (seedKey : list Z) (st : list Z * Z * Z) : Prop :=
  length st.1.1 = 256%nat ∧ Forall is_byte st.1.1 ∧ st.1.1 ≡ₚ seqZ 0 256 ∧
  0 ≤ st.2 < len seedKey.

Lemma ksa_step_ok key_data i key_box last off :
  length key_box = 256%nat → Forall is_byte key_box →
  0 ≤ i < 256 → 0 ≤ off < len key_data →
  ksa_step key_data i (key_box, last, off)
  = Ok (swap_entries key_box i
          ((table_at key_box i + last + table_at key_data off) `mod` 256),
        (table_at key_box i + last + table_at key_data off) `mod` 256,
        (off + 1) `mod` len key_data).
Proof.
  intros Hlen Hkb Hi Hoff. unfold ksa_step.
  rewrite (getitem_table key_box i) by lia. simpl.
  rewrite (getitem_table key_data off) by lia. simpl.
  rewrite land_255.
  set (c := (table_at key_box i + last + table_at key_data off) `mod` 256).
  assert (0 ≤ c < 256) as Hc by (apply Z.mod_pos_bound; lia).
  rewrite (getitem_table key_box c) by lia. simpl.
  rewrite setitem_insert by (try apply table_at_byte; lia || done). simpl.
  rewrite setitem_insert; [done|by rewrite length_insert; lia|].
  apply table_at_byte; [done|lia].
Qed.

Lemma swap_entries_inv table i c :
  length table = 256%nat → Forall is_byte table → table ≡ₚ seqZ 0 256 →
  0 ≤ i < 256 → 0 ≤ c < 256 →
  length (swap_entries table i c) = 256%nat ∧
  Forall is_byte (swap_entries table i c) ∧
  swap_entries table i c ≡ₚ seqZ 0 256.
Proof.
  intros Hlen Hb Hp Hi Hc. unfold swap_entries.
  assert (<[Z.to_nat c:=table_at table i]> (<[Z.to_nat i:=table_at table c]> table)
          ≡ₚ table) as Hsw.
  { apply swap_Permutation; apply table_at_lookup; lia. }
  split; [by rewrite !length_insert|]. split; [by rewrite Hsw|].
  by rewrite Hsw.
Qed.

Lemma spec_schedule_S seedKey n :
  spec_schedule seedKey (S n)
  = (let '(table, carry, keyOffset) := spec_schedule seedKey n in
     let i := Z.of_nat n in
     let c := (table_at table i + carry + table_at seedKey keyOffset) `mod` 256 in
     (swap_entries table i c, c, (keyOffset + 1) `mod` len seedKey)).
Proof. reflexivity. Qed.

#[local] Opaque spec_schedule.

Lemma ksa_loop key_data (n : nat) :
  key_data ≠ [] → (n ≤ 256)%nat →
  for_loop (ksa_step key_data) (seqZ 0 (Z.of_nat n)) (seqZ 0 256, 0, 0)
  = Ok (spec_schedule key_data n) ∧ ksa_inv key_data (spec_schedule key_data n).
Proof.
  intros Hne. assert (0 < len key_data) as Hpos by (destruct key_data; [done|simpl length; lia]).
  induction n as [|n IH]; intros Hn.
  - split; [reflexivity|]. unfold ksa_inv.
    change (spec_schedule key_data 0) with (seqZ 0 256, 0, 0). cbn [fst snd].
    split; [reflexivity|]. split; [|split; [reflexivity|lia]].
    apply Forall_seqZ. unfold is_byte. lia.
  - destruct IH as [Hrun Hinv]; [lia|].
    replace (Z.of_nat (S n)) with (Z.of_nat n + 1) by lia.
    rewrite seqZ_app by lia. rewrite for_loop_app, Hrun.
    bind_ok.
    rewrite spec_schedule_S.
    destruct (spec_schedule key_data n) as [[table carry] off].
    destruct Hinv as (Hlen & Hb & Hp & Hoff). cbn [fst snd] in Hlen, Hb, Hp, Hoff.
    rewrite Z.add_0_l. change (seqZ (Z.of_nat n) 1) with [Z.of_nat n].
    rewrite for_loop_cons, ksa_step_ok by (assumption || lia).
    split; [reflexivity|].
    destruct (swap_entries_inv table (Z.of_nat n)
                ((table_at table (Z.of_nat n) + carry + table_at key_data off) `mod` 256))
      as (Hlen' & Hb' & Hp'); [assumption|assumption|assumption|lia|by apply Z.mod_pos_bound|].
    unfold ksa_inv. cbn [fst snd]. repeat split; try assumption; by apply Z.mod_pos_bound.
Qed.

Lemma build_key_box_ok key_data :
  key_data ≠ [] →
  build_key_box key_data = Ok (spec_table key_data) ∧
  length (spec_table key_data) = 256%nat ∧
  Forall is_byte (spec_table key_data) ∧
  spec_table key_data ≡ₚ seqZ 0 256.
Proof.
  intros Hne. destruct (ksa_loop key_data 256 Hne) as [Hrun Hinv]; [lia|].
  unfold build_key_box, range, spec_table.
  change (256 - 0) with (Z.of_nat 256). rewrite Hrun.
  split; [reflexivity|]. destruct Hinv as (? & ? & ? & _). by repeat split.
Qed.

(** *** The counter that is never reset *)

Lemma read_loop_step size key_box f m :
  read_loop size key_box f m
  = match take (Z.to_nat size) f with
    | [] => (Ok key_box, m)
    | chunk =>
        match decode_chunk key_box chunk with
        | Raise e => (Raise e, m)
        | Ok (key_box', chunk') =>
            read_loop size key_box' (drop (Z.to_nat size) f) (m ++ chunk')
        end
    end.
Proof.
  funelim (read_loop size key_box f m); rewrite e'; try rewrite Heq; congruence.
Qed.

Lemma read_loop_global_step size base key_box f m :
  read_loop_global size base key_box f m
  = match take (Z.to_nat size) f with
    | [] => (Ok key_box, m)
    | chunk =>
        match decode_chunk_global base key_box chunk with
        | Raise e => (Raise e, m)
        | Ok (key_box', chunk') =>
            read_loop_global size (base + len chunk) key_box'
              (drop (Z.to_nat size) f) (m ++ chunk')
        end
    end.
Proof.
  funelim (read_loop_global size base key_box f m); rewrite e'; try rewrite Heq; congruence.
Qed.

Lemma decode_step_global_eq base i st :
  (256 | base) → decode_step_global base i st = decode_step i st.
Proof.
  intros [q ->]. unfold decode_step_global, decode_step. destruct st as [key_box chunk].
  by rewrite !land_255, Z.add_comm, Z_mod_plus_full, <- land_255.
Qed.

Lemma for_loop_ext {S} (body1 body2 : Z → S → result S) idx s :
  (∀ i s, body1 i s = body2 i s) → for_loop body1 idx s = for_loop body2 idx s.
Proof.
  intros Heq. revert s. induction idx as [|i idx IH]; intros s; simpl; [done|].
  rewrite Heq. destruct (body2 i s); simpl; [apply IH|done].
Qed.

Lemma decode_chunk_global_eq base key_box chunk :
  (256 | base) → decode_chunk_global base key_box chunk = decode_chunk key_box chunk.
Proof.
  intros Hb. unfold decode_chunk_global, decode_chunk.
  apply for_loop_ext. intros i s. by apply decode_step_global_eq.
Qed.

Lemma read_loop_global_eq size base key_box f m :
  0 < size → (256 | size) → (256 | base) →
  read_loop_global size base key_box f m = read_loop size key_box f m.
Proof.
  intros Hsize Hdiv. remember (length f) as n eqn:Hn.
  revert base key_box f m Hn.
  induction (lt_wf n) as [n _ IH]; intros base key_box f m -> Hbase.
  rewrite read_loop_global_step, read_loop_step.
  destruct (take (Z.to_nat size) f) as [|x chunk] eqn:Htake; [done|].
  cbv beta iota zeta. rewrite decode_chunk_global_eq by done.
  destruct (decode_chunk key_box (x :: chunk)) as [[key_box' chunk']|e]; [|done].
  destruct (decide (Z.to_nat size ≤ length f)%nat) as [Hle|Hgt].
  - apply (IH (length (drop (Z.to_nat size) f))); [|done|].
    + rewrite length_drop. lia.
    + rewrite <- Htake, length_take_le, Z2Nat.id by lia. by apply Z.divide_add_r.
  - rewrite drop_ge by lia.
    by rewrite read_loop_global_step, read_loop_step, take_nil.
Qed.

#[local] Opaque read_loop read_loop_global.

Lemma chunk_size_divides : (256 | 0x8000).
Proof. by exists 128. Qed.

Lemma stream_audio_ok key_box f m :
  length key_box = 256%nat → Forall is_byte key_box → Forall is_byte f →
  stream_audio key_box f m = (Ok key_box, m ++ xor_keystream key_box 1 f).
Proof.
  intros. unfold stream_audio.
  apply read_loop_ok; [lia|apply chunk_size_divides|assumption..].
Qed.

Lemma stream_audio_global_eq key_box f m :
  stream_audio_global key_box f m = stream_audio key_box f m.
Proof.
  unfold stream_audio_global, stream_audio.
  apply read_loop_global_eq; [lia|apply chunk_size_divides|by exists 0].
Qed.

(** *** The padding remover *)

Lemma unpad_slice b n :
  last b = Some n → unpad b = Ok (slice_to b (- n)).
Proof. intros Hn. unfold unpad. by rewrite getitem_last, Hn. Qed.

(** C6 (as amended): for a buffer whose last byte is [n] with
    [1 <= n <= len(buffer)], [unpad] returns exactly the first
    [len(buffer) - n] bytes; for [n = 0] or [n > len(buffer)] it does not
    fail but returns the empty byte sequence. *)
Theorem unpad_strips_or_empties (b : list Z) (n : Z) :
  last b = Some n →
  (1 ≤ n ≤ len b → unpad b = Ok (take (length b - Z.to_nat n) b)) ∧
  (n = 0 ∨ len b < n → unpad b = Ok []).
Proof.
  intros Hn. rewrite (unpad_slice b n Hn). unfold slice_to. split.
  - intros Hr. rewrite decide_True by lia. do 2 f_equal. lia.
  - intros [->|Hr].
    + change (- 0) with 0. by rewrite decide_False, Z.min_l, take_0 by lia.
    + assert (0 ≤ len b) by lia.
      rewrite decide_True by lia. by rewrite Z.max_r by lia.
Qed.

Lemma unpad_strips_or_empties_witness :
  last [7; 8; 9; 2] = Some 2 ∧
  (1 ≤ 2 ≤ len [7; 8; 9; 2] → unpad [7; 8; 9; 2] = Ok (take (4 - Z.to_nat 2) [7; 8; 9; 2])) ∧
  (2 = 0 ∨ len [7; 8; 9; 2] < 2 → unpad [7; 8; 9; 2] = Ok []).
Proof. split; [reflexivity|]. apply (unpad_strips_or_empties [7; 8; 9; 2] 2). reflexivity. Defined.

(** C6, counterexample: with a last byte of 0, and with a last byte larger
    than the buffer, [unpad] returns the empty byte sequence instead of
    failing. *)
Lemma unpad_does_not_validate :
  unpad [1; 2; 0] = Ok [] ∧ unpad [1; 9] = Ok [].
Proof. split; reflexivity. Qed.

(** C10: for every non-empty byte buffer [b] with last byte [n], [unpad]
    never raises; it returns [b[0 : len(b)-n]] when [1 <= n < len(b)] and
    the empty byte sequence both when [n = 0] (the slice [b[:-0]] is
    [b[:0]]) and when [n >= len(b)]. *)
Theorem unpad_total (b : list Z) (n : Z) :
  b ≠ [] → last b = Some n →
  (∃ r, unpad b = Ok r) ∧
  (1 ≤ n < len b → unpad b = Ok (take (Z.to_nat (len b - n)) b)) ∧
  (n = 0 → unpad b = Ok []) ∧
  (len b ≤ n → unpad b = Ok []).
Proof.
  intros _ Hn. rewrite (unpad_slice b n Hn). split; [by eexists|].
  unfold slice_to. split; [|split].
  - intros Hr. rewrite decide_True by lia. do 2 f_equal. lia.
  - intros ->. change (- 0) with 0. by rewrite decide_False, Z.min_l, take_0 by lia.
  - intros Hr. destruct (decide (n = 0)) as [->|Hne].
    + assert (length b = 0%nat) as Hb by lia. by destruct b.
    + rewrite decide_True by lia. by rewrite Z.max_r by lia.
Qed.

Lemma unpad_total_witness :
  [5; 6; 0] ≠ [] ∧ last [5; 6; 0] = Some 0 ∧
  (∃ r, unpad [5; 6; 0] = Ok r) ∧
  (1 ≤ 0 < len [5; 6; 0] → unpad [5; 6; 0] = Ok (take (Z.to_nat (len [5; 6; 0] - 0)) [5; 6; 0])) ∧
  (0 = 0 → unpad [5; 6; 0] = Ok []) ∧
  (len [5; 6; 0] ≤ 0 → unpad [5; 6; 0] = Ok []).
Proof.
  split; [discriminate|]. split; [reflexivity|].
  apply (unpad_total [5; 6; 0] 0); [discriminate|reflexivity].
Defined.

(** *** The keystream engine *)

(** C1: for every seed key of length at least 1 and every 1-indexed
    position [p] within a chunk, the decoded byte is the ciphertext byte
    XORed with [table[idx]], where [j = p mod 256],
    [idx = (table[j] + table[(table[j] + j) mod 256]) mod 256] and [table]
    is the array the key schedule builds from the seed key (identity
    permutation, then for [i = 0..255]: [c = (table[i] + carry +
    seedKey[keyOffset]) mod 256], advance [keyOffset], swap [table[i]] and
    [table[c]], [carry = c]). *)
Theorem keystream_decode (key_data chunk : list Z) :
  1 ≤ len key_data → Forall is_byte chunk →
  ∃ table out,
    build_key_box key_data = Ok table ∧ table = spec_table key_data ∧
    decode_chunk table chunk = Ok (table, out) ∧
    length out = length chunk ∧
    ∀ p x, 1 ≤ p → chunk !! Z.to_nat (p - 1) = Some x →
           out !! Z.to_nat (p - 1) = Some (Z.lxor x (spec_keystream table p)).
Proof.
  intros Hk Hc. assert (key_data ≠ []) as Hne by (intros ->; simpl in Hk; lia).
  destruct (build_key_box_ok key_data Hne) as (Hrun & Hlen & Hb & _).
  exists (spec_table key_data), (xor_keystream (spec_table key_data) 1 chunk).
  split; [done|]. split; [done|]. split; [by apply decode_chunk_ok|].
  split; [apply xor_keystream_length|].
  intros p x Hp Hx. rewrite (xor_keystream_lookup _ _ _ _ _ Hx).
  do 3 f_equal. lia.
Qed.

Lemma keystream_decode_witness :
  1 ≤ len [84; 69; 83; 84] ∧ Forall is_byte [1; 2; 3] ∧
  ∃ table out,
    build_key_box [84; 69; 83; 84] = Ok table ∧ table = spec_table [84; 69; 83; 84] ∧
    decode_chunk table [1; 2; 3] = Ok (table, out) ∧
    length out = length [1; 2; 3] ∧
    ∀ p x, 1 ≤ p → [1; 2; 3] !! Z.to_nat (p - 1) = Some x →
           out !! Z.to_nat (p - 1) = Some (Z.lxor x (spec_keystream table p)).
Proof.
  assert (Forall is_byte [1; 2; 3]) as Hb by (repeat constructor; unfold is_byte; lia).
  split; [simpl; lia|]. split; [exact Hb|].
  apply (keystream_decode [84; 69; 83; 84] [1; 2; 3]); [simpl; lia|exact Hb].
Defined.

(** C9: for every seed key of length at least 1 the table produced by the
    key schedule is a permutation of the byte values 0..255, and decoding
    never mutates it: the audio loop hands back the very table it was
    given. *)
Theorem key_box_permutation_readonly (key_data : list Z) :
  1 ≤ len key_data →
  ∃ key_box,
    build_key_box key_data = Ok key_box ∧
    key_box ≡ₚ seqZ 0 256 ∧
    ∀ payload, Forall is_byte payload →
      (∃ out, decode_chunk key_box payload = Ok (key_box, out)) ∧
      (∃ written, stream_audio key_box payload [] = (Ok key_box, written)).
Proof.
  intros Hk. assert (key_data ≠ []) as Hne by (intros ->; simpl in Hk; lia).
  destruct (build_key_box_ok key_data Hne) as (Hrun & Hlen & Hb & Hp).
  exists (spec_table key_data). split; [done|]. split; [done|].
  intros payload Hpay. split.
  - eexists. by apply decode_chunk_ok.
  - eexists. by apply stream_audio_ok.
Qed.

Lemma key_box_permutation_readonly_witness :
  1 ≤ len [84; 69; 83; 84] ∧
  ∃ key_box,
    build_key_box [84; 69; 83; 84] = Ok key_box ∧
    key_box ≡ₚ seqZ 0 256 ∧
    ∀ payload, Forall is_byte payload →
      (∃ out, decode_chunk key_box payload = Ok (key_box, out)) ∧
      (∃ written, stream_audio key_box payload [] = (Ok key_box, written)).
Proof.
  split; [simpl; lia|].
  apply (key_box_permutation_readonly [84; 69; 83; 84]). simpl; lia.
Defined.

(** C4: for every audio payload and every keystream table, decoding the
    payload in successive 32768-byte chunks, the position counter
    restarting at 1 in each chunk, gives byte for byte the output of
    decoding the payload as one chunk with positions [1..len(payload)]. *)
Theorem chunked_equals_contiguous (key_box payload : list Z) :
  length key_box = 256%nat → Forall is_byte key_box → Forall is_byte payload →
  ∃ out,
    decode_chunk key_box payload = Ok (key_box, out) ∧
    stream_audio key_box payload [] = (Ok key_box, out).
Proof.
  intros Hlen Hkb Hpay. exists (xor_keystream key_box 1 payload).
  split; [by apply decode_chunk_ok|].
  by rewrite stream_audio_ok.
Qed.

Lemma chunked_equals_contiguous_witness :
  0x8000 < len (replicate (Z.to_nat 40000) 7) ∧
  ∃ out,
    decode_chunk (spec_table (py "TESTKEY!")) (replicate (Z.to_nat 40000) 7)
    = Ok (spec_table (py "TESTKEY!"), out) ∧
    stream_audio (spec_table (py "TESTKEY!")) (replicate (Z.to_nat 40000) 7) []
    = (Ok (spec_table (py "TESTKEY!")), out).
Proof.
  split; [rewrite length_replicate; lia|].
  apply (chunked_equals_contiguous (spec_table (py "TESTKEY!"))
           (replicate (Z.to_nat 40000) 7)).
  - vm_compute. reflexivity.
  - by_compute.
  - apply Forall_replicate. unfold is_byte. lia.
Defined.

Lemma xor_keystream_involutive table p data :
  xor_keystream table p (xor_keystream table p data) = data.
Proof.
  revert p. induction data as [|x data IH]; intros p; simpl; [done|].
  by rewrite IH, Z.lxor_assoc, Z.lxor_nilpotent, Z.lxor_0_r.
Qed.

(** X1: decoding is its own inverse: running the chunk loop on its output
    gives back the input, so a chunk encrypted with this keystream is
    recovered bit for bit (the round trip of section 8). *)
Theorem decode_chunk_involutive (key_box chunk : list Z) :
  length key_box = 256%nat → Forall is_byte key_box → Forall is_byte chunk →
  ∃ out,
    decode_chunk key_box chunk = Ok (key_box, out) ∧
    decode_chunk key_box out = Ok (key_box, chunk).
Proof.
  intros Hlen Hkb Hc. exists (xor_keystream key_box 1 chunk).
  split; [by apply decode_chunk_ok|].
  rewrite decode_chunk_ok by (try apply xor_keystream_byte; assumption).
  by rewrite xor_keystream_involutive.
Qed.

Lemma decode_chunk_involutive_witness :
  length (seqZ 0 256) = 256%nat ∧ Forall is_byte (seqZ 0 256) ∧
  Forall is_byte [73; 68; 51] ∧
  ∃ out,
    decode_chunk (seqZ 0 256) [73; 68; 51] = Ok (seqZ 0 256, out) ∧
    decode_chunk (seqZ 0 256) out = Ok (seqZ 0 256, [73; 68; 51]).
Proof.
  assert (Forall is_byte (seqZ 0 256)) as Hkb by by_compute.
  assert (Forall is_byte [73; 68; 51]) as Hc by by_compute.
  split; [reflexivity|]. split; [exact Hkb|]. split; [exact Hc|].
  apply (decode_chunk_involutive (seqZ 0 256) [73; 68; 51]);
    [reflexivity|exact Hkb|exact Hc].
Defined.

(** C5 (as amended): for every audio payload and every keystream table,
    decoding with a position counter that keeps counting across chunk
    boundaries gives the same output as the per-chunk reset of the source,
    because the keystream byte depends on the position modulo 256 only and
    the chunk size 32768 is a multiple of 256. *)
Theorem global_counter_same_output (key_box payload m : list Z) :
  stream_audio_global key_box payload m = stream_audio key_box payload m.
Proof. apply stream_audio_global_eq. Qed.

(** C5, counterexample: no payload longer than 32768 bytes and no table
    make the never-reset counter and the per-chunk counter disagree. *)
Lemma global_counter_never_differs :
  ¬ ∃ key_box payload : list Z,
      32768 < len payload ∧
      stream_audio_global key_box payload [] ≠ stream_audio key_box payload [].
Proof.
  intros (key_box & payload & _ & Hne). apply Hne, stream_audio_global_eq.
Qed.

(** *** The reference library *)

(** FIPS 197, appendix C.1. *)
Example aes128_fips197_vector :
  Reference.aes_ecb_decrypt
    [0; 1; 2; 3; 4; 5; 6; 7; 8; 9; 10; 11; 12; 13; 14; 15]
    [0x69; 0xc4; 0xe0; 0xd8; 0x6a; 0x7b; 0x04; 0x30;
     0xd8; 0xcd; 0xb7; 0x80; 0x70; 0xb4; 0xc5; 0x5a]
  = Ok [0x00; 0x11; 0x22; 0x33; 0x44; 0x55; 0x66; 0x77;
        0x88; 0x99; 0xaa; 0xbb; 0xcc; 0xdd; 0xee; 0xff].
Proof. vm_compute. reflexivity. Qed.

(** *** The decoder as a whole *)

Lemma core_key_hex_ok : a2b_hex core_key_hex = Ok core_key.
Proof. reflexivity. Qed.

Lemma meta_key_hex_ok : a2b_hex meta_key_hex = Ok meta_key.
Proof. reflexivity. Qed.

(** [dump_ncm] stage by stage. *)
Lemma dump_ncm_stages `{Library} input_fp output_fp w container :
  fs w !! input_fp = Some container →
  dump_ncm input_fp output_fp w =
  match before_output core_key meta_key container output_fp with
  | Raise e => (Raise e, w)
  | Ok (key_box, meta, payload, final) =>
      match open_wb final with
      | Some e => (Raise e, w)
      | None =>
          let run := stream_audio key_box payload [] in
          let w1 := World (<[final := run.2]> (fs w)) (covers w) in
          match run.1 with
          | Raise e => (Raise e, w1)
          | Ok _ =>
              match cover_url_of meta with
              | Raise e => (Raise e, w1)
              | Ok cover_url =>
                  if bool_decide (cover_url ≠ []) then
                    (Ok final,
                     World (cover_art cover_url final (fs w1)) (covers w ++ [cover_url]))
                  else (Ok final, w1)
              end
          end
      end
  end.
Proof.
  intros Hin. unfold dump_ncm, mbind, M_bind, lift, open_rb.
  rewrite core_key_hex_ok, meta_key_hex_ok, Hin.
  destruct (before_output core_key meta_key container output_fp)
    as [[[[key_box meta] payload] final]|e]; [|done].
  unfold write_audio. destruct (open_wb final); [done|]. cbn [fs covers].
  destruct (stream_audio key_box payload []) as [r written]. cbn [fst snd].
  rewrite insert_insert_eq.
  destruct r as [kb|e]; [|done]. cbn.
  destruct (cover_url_of meta) as [cover_url|e]; [|done].
  unfold cover_stage. cbn [fs covers]. by case_bool_decide.
Qed.

Lemma hex_digit_inj a b :
  0 ≤ a < 16 → 0 ≤ b < 16 → hex_digit a = hex_digit b → a = b.
Proof. unfold hex_digit. intros. repeat case_decide; lia. Qed.

Lemma b2a_hex_inj a b :
  Forall is_byte a → Forall is_byte b → b2a_hex a = b2a_hex b → a = b.
Proof.
  intros Ha. revert b. induction Ha as [|x a Hx Ha IH]; intros b Hb Heq.
  - by destruct b.
  - destruct Hb as [|y b Hy Hb]; [done|].
    unfold b2a_hex in Heq. simpl in Heq. injection Heq as Hhi Hlo Hrest.
    unfold is_byte in Hx, Hy.
    apply hex_digit_inj in Hhi;
      [|split; [apply Z.div_pos|apply Z.div_lt_upper_bound]; lia..].
    apply hex_digit_inj in Hlo; [|apply Z.mod_pos_bound; lia..].
    f_equal; [|by apply IH].
    rewrite (Z.div_mod x 16), (Z.div_mod y 16) by lia. by rewrite Hhi, Hlo.
Qed.

Lemma magic_hex_ok : magic_hex = b2a_hex magic.
Proof. reflexivity. Qed.

Lemma magic_is_bytes : Forall is_byte magic.
Proof. by_compute. Qed.

Lemma bad_magic_raises `{Library} key f :
  Forall is_byte f → take 8 f ≠ magic →
  read_key_box key f = Raise AssertionError.
Proof.
  intros Hf Hne. unfold read_key_box, file_read.
  change (Z.to_nat 8) with 8%nat.
  rewrite bool_decide_eq_false_2; [done|].
  rewrite magic_hex_ok. intros Heq. apply Hne.
  apply b2a_hex_inj; [by apply Forall_take|apply magic_is_bytes|done].
Qed.

(** C8: for every input file whose first 8 bytes are not the magic
    signature [CTENFDAM], [dump_ncm] fails at the header check (the
    [AssertionError] of line 103, the specification's
    [InvalidContainerError]) and leaves the file system as it was: no file
    is created at the output path. *)
Theorem bad_magic_fails `{Library} (input_fp output_fp : str) (w : world)
    (container : list Z) :
  fs w !! input_fp = Some container → Forall is_byte container →
  take 8 container ≠ magic →
  dump_ncm input_fp output_fp w = (Raise AssertionError, w).
Proof.
  intros Hin Hb Hne. rewrite (dump_ncm_stages _ _ _ _ Hin).
  unfold before_output. by rewrite bad_magic_raises.
Qed.

Lemma bad_magic_fails_witness :
  fs (world_of (py "RIFFxxxxWAVE")) !! py "in.ncm" = Some (py "RIFFxxxxWAVE") ∧
  Forall is_byte (py "RIFFxxxxWAVE") ∧
  take 8 (py "RIFFxxxxWAVE") ≠ magic ∧
  dump_ncm (H := Reference.library) (py "in.ncm") (py "out.mp3")
    (world_of (py "RIFFxxxxWAVE"))
  = (Raise AssertionError, world_of (py "RIFFxxxxWAVE")).
Proof.
  assert (Forall is_byte (py "RIFFxxxxWAVE")) as Hb
    by by_compute.
  assert (take 8 (py "RIFFxxxxWAVE") ≠ magic) as Hne by (vm_compute; discriminate).
  split; [reflexivity|]. split; [exact Hb|]. split; [exact Hne|].
  apply (bad_magic_fails (H := Reference.library) (py "in.ncm") (py "out.mp3")
           (world_of (py "RIFFxxxxWAVE")) (py "RIFFxxxxWAVE"));
    [reflexivity|exact Hb|exact Hne].
Defined.

(** *** Key recovery *)

Lemma xor_loop k pre todo :
  is_byte k → Forall is_byte todo →
  for_loop (fun i d => x ← getitem d i; setitem d i (Z.lxor x k))
           (seqZ (len pre) (len todo)) (pre ++ todo)
  = Ok (pre ++ ((fun b => Z.lxor b k) <$> todo)).
Proof.
  intros Hk. revert pre.
  induction todo as [|x todo IH]; intros pre Htodo; [done|].
  apply Forall_cons in Htodo as [Hx Htodo].
  rewrite seqZ_cons by (simpl length; lia). rewrite for_loop_cons.
  rewrite (getitem_lookup (pre ++ x :: todo) (len pre) x);
    [|lia|by rewrite Nat2Z.id, list_lookup_middle].
  bind_ok.
  rewrite setitem_insert;
    [|rewrite length_app; simpl length; lia|by apply lxor_byte].
  bind_ok.
  rewrite Nat2Z.id, insert_app_r_alt, Nat.sub_diag by lia. simpl insert.
  specialize (IH (pre ++ [Z.lxor x k]) Htodo).
  rewrite length_app in IH. simpl length in IH.
  replace (Z.succ (len pre)) with (Z.of_nat (length pre + 1)) by lia.
  replace (Z.pred (len (x :: todo))) with (len todo) by (simpl length; lia).
  rewrite <- !(assoc_L (++) pre) in IH. exact IH.
Qed.

Lemma xor_inplace_map k data :
  is_byte k → Forall is_byte data →
  xor_inplace k data = Ok ((fun b => Z.lxor b k) <$> data).
Proof.
  intros Hk Hd. unfold xor_inplace, range. rewrite Z.sub_0_r.
  exact (xor_loop k [] data Hk Hd).
Qed.

Lemma slice_from_drop {A} (s : list A) (k : nat) :
  slice_from s (Z.of_nat k) = drop k s.
Proof.
  unfold slice_from. rewrite decide_False by lia.
  destruct (decide (k ≤ length s)%nat).
  - by rewrite Z.min_l, Nat2Z.id by lia.
  - rewrite Z.min_r, Nat2Z.id by lia. by rewrite !drop_ge by lia.
Qed.

Lemma unpad_valid (b : list Z) (n : Z) :
  last b = Some n → 1 ≤ n ≤ len b →
  unpad b = Ok (take (length b - Z.to_nat n) b).
Proof.
  intros Hn Hr. rewrite (unpad_slice b n Hn). unfold slice_to.
  rewrite decide_True by lia. do 2 f_equal. lia.
Qed.

Lemma unpad_invalid (b : list Z) (n : Z) :
  last b = Some n → n = 0 ∨ len b < n → unpad b = Ok [].
Proof.
  intros Hn Hr. rewrite (unpad_slice b n Hn). unfold slice_to.
  destruct Hr as [->|Hr].
  - change (- 0) with 0. by rewrite decide_False, Z.min_l, take_0 by lia.
  - assert (0 ≤ len b) by lia.
    rewrite decide_True by lia. by rewrite Z.max_r by lia.
Qed.

(** C7 (as amended): for every key block whose decrypted buffer ends in a
    pad length [n] with [1 <= n <= len(buffer)], the recovered seed key is
    the result of XORing every byte with [0x64], ECB-decrypting with the
    fixed 16-byte core key, removing the trailing padding and discarding
    the first 17 bytes.  For a pad length of 0 or above the length of the
    buffer, where the padding remover of the specification fails, the code
    does not fail: it recovers the empty seed key. *)
Theorem seed_key_recovery `{Library} (key_block : list Z) :
  Forall is_byte key_block →
  a2b_hex core_key_hex = Ok core_key ∧ length core_key = 16%nat ∧
  (∀ plain n,
     aes_ecb_decrypt core_key ((fun b => Z.lxor b 0x64) <$> key_block) = Ok plain →
     last plain = Some n → 1 ≤ n ≤ len plain →
     ∃ key,
       spec_seed_key key_block = Some key ∧
       recover_key core_key key_block = Ok key) ∧
  (∀ plain n,
     aes_ecb_decrypt core_key ((fun b => Z.lxor b 0x64) <$> key_block) = Ok plain →
     last plain = Some n → n = 0 ∨ len plain < n →
     spec_seed_key key_block = None ∧
     recover_key core_key key_block = Ok []).
Proof.
  intros Hb. split; [reflexivity|]. split; [reflexivity|].
  unfold recover_key, spec_seed_key, spec_remove_pad.
  rewrite xor_inplace_map; [|unfold is_byte; lia|done].
  bind_ok. split.
  - intros plain n -> Hn Hr. bind_ok. rewrite (unpad_valid plain n Hn Hr). bind_ok.
    rewrite Hn. simpl. rewrite decide_True by done. simpl.
    eexists. split; [reflexivity|].
    change 17 with (Z.of_nat 17). by rewrite slice_from_drop.
  - intros plain n -> Hn Hr. bind_ok. rewrite (unpad_invalid plain n Hn Hr). bind_ok.
    rewrite Hn. simpl. rewrite decide_False by lia. done.
Qed.

Lemma seed_key_recovery_witness :
  Forall is_byte (take 32 (drop 14 container_flac)) ∧
  a2b_hex core_key_hex = Ok core_key ∧ length core_key = 16%nat ∧
  (∀ plain n,
     aes_ecb_decrypt (Library := Reference.library) core_key
       ((fun b => Z.lxor b 0x64) <$> take 32 (drop 14 container_flac)) = Ok plain →
     last plain = Some n → 1 ≤ n ≤ len plain →
     ∃ key,
       spec_seed_key (H := Reference.library) (take 32 (drop 14 container_flac))
       = Some key ∧
       recover_key (H := Reference.library) core_key (take 32 (drop 14 container_flac))
       = Ok key) ∧
  (∀ plain n,
     aes_ecb_decrypt (Library := Reference.library) core_key
       ((fun b => Z.lxor b 0x64) <$> take 32 (drop 14 container_flac)) = Ok plain →
     last plain = Some n → n = 0 ∨ len plain < n →
     spec_seed_key (H := Reference.library) (take 32 (drop 14 container_flac)) = None ∧
     recover_key (H := Reference.library) core_key (take 32 (drop 14 container_flac))
     = Ok []).
Proof.
  assert (Forall is_byte (take 32 (drop 14 container_flac))) as Hb by by_compute.
  split; [exact Hb|].
  apply (seed_key_recovery (H := Reference.library) (take 32 (drop 14 container_flac))).
  exact Hb.
Defined.

(** C7, counterexample: the key block [key_block_zero_pad] decrypts to 16
    bytes that end in a pad length of 0.  The padding remover of the
    specification fails there, so the recovery it describes has no result;
    the code goes on with the empty seed key. *)
Lemma seed_key_zero_pad :
  Forall is_byte key_block_zero_pad ∧
  aes_ecb_decrypt (Library := Reference.library) core_key
    ((fun b => Z.lxor b 0x64) <$> key_block_zero_pad)
  = Ok (py "neteasecloudmus" ++ [0]) ∧
  spec_seed_key (H := Reference.library) key_block_zero_pad = None ∧
  recover_key (H := Reference.library) core_key key_block_zero_pad = Ok [].
Proof.
  split; [by_compute|]. split; [vm_compute; reflexivity|].
  split; vm_compute; reflexivity.
Qed.

(** The key block of the example containers holds the seed key
    [TESTKEY!]. *)
Example seed_key_of_example :
  recover_key (H := Reference.library) core_key (take 32 (drop 14 container_flac))
  = Ok (py "TESTKEY!").
Proof. vm_compute. reflexivity. Qed.

Example spec_seed_key_of_example :
  spec_seed_key (H := Reference.library) (take 32 (drop 14 container_flac))
  = Some (py "TESTKEY!").
Proof. vm_compute. reflexivity. Qed.

(** *** Failures and the output file *)

Lemma bind_Ok {A B} (m : result A) (f : A → result B) b :
  m ≫= f = Ok b → ∃ a, m = Ok a ∧ f a = Ok b.
Proof. destruct m as [a|e]; [|done]. intros Hf. by exists a. Qed.

(** A run that reaches the output has decoded the metadata and chosen the
    output path from it. *)
Lemma before_output_choice `{Library} container output_fp key_box meta payload final :
  before_output core_key meta_key container output_fp
  = Ok (key_box, meta, payload, final) →
  (∃ box f1 meta_block f2,
     read_key_box core_key container = Ok (box, f1) ∧
     read_meta_block f1 = Ok (meta_block, f2) ∧
     recover_meta meta_key meta_block = Ok meta) ∧
  choose_output meta output_fp = Ok final.
Proof.
  unfold before_output. intros Hrun.
  apply bind_Ok in Hrun as ([kb f1] & Hkey & Hrun).
  apply bind_Ok in Hrun as ([meta_data f2] & Hblock & Hrun).
  apply bind_Ok in Hrun as (meta' & Hmeta & Hrun).
  apply bind_Ok in Hrun as (f3 & Hskip & Hrun).
  apply bind_Ok in Hrun as (final' & Hchoose & Hrun).
  assert (meta' = meta ∧ final' = final) as [-> ->].
  { split.
    - by apply (f_equal (fun r => match r with Ok x => x.1.1.2 | Raise _ => meta' end)) in Hrun.
    - by apply (f_equal (fun r => match r with Ok x => x.2 | Raise _ => final' end)) in Hrun. }
  split; [|done]. by exists kb, f1, meta_data, f2.
Qed.

(** The extension is that of the [format] entry when the metadata is an
    object that has one, and [mp3] when it is an object without one;
    nothing else gives an output path. *)
Lemma choose_output_Ok `{Library} (meta : pyval) (requested final : str) :
  choose_output meta requested = Ok final →
  ∃ d fmt,
    meta = PyDict d ∧
    default (PyStr (py "mp3")) (d !! py "format") = PyStr fmt ∧
    final = if endswith (str_lower requested) (py "." ++ str_lower fmt)
            then requested
            else splitext_root requested ++ py "." ++ str_lower fmt.
Proof.
  unfold choose_output, py_get, py_lower.
  destruct meta as [| | | | |l|d]; try discriminate.
  bind_ok.
  destruct (default (PyStr (py "mp3")) (d !! py "format")) as [| | | |fmt| |] eqn:Hd;
    try discriminate.
  bind_ok. intros Hfinal. exists d, fmt. split; [done|]. split; [exact Hd|].
  destruct (endswith (str_lower requested) (py "." ++ str_lower fmt)); congruence.
Qed.

(** C2 (as amended): for every container whose metadata block fails to
    decode (at the XOR unmasking, base64, ECB decryption, padding removal,
    UTF-8 or JSON stage), [dump_ncm] fails with the error of that stage;
    it creates no output file and performs no cover-art retrieval.  The
    extension [mp3] is the default only when the metadata decodes and has
    no [format] entry: whenever an output path is chosen, the metadata is
    an object and the extension is its [format] entry, lower-cased, or
    [mp3] when it has none. *)
Theorem metadata_failure_aborts `{Library} (input_fp output_fp : str) (w : world)
    (container key_box f1 meta_block f2 : list Z) (e : exn) :
  fs w !! input_fp = Some container →
  read_key_box core_key container = Ok (key_box, f1) →
  read_meta_block f1 = Ok (meta_block, f2) →
  recover_meta meta_key meta_block = Raise e →
  dump_ncm input_fp output_fp w = (Raise e, w) ∧
  ∀ other box meta payload requested final,
    before_output core_key meta_key other requested = Ok (box, meta, payload, final) →
    ∃ block d fmt,
      recover_meta meta_key block = Ok meta ∧
      meta = PyDict d ∧
      match d !! py "format" with
      | Some v => v = PyStr fmt
      | None => fmt = py "mp3"
      end ∧
      final = if endswith (str_lower requested) (py "." ++ str_lower fmt)
              then requested
              else splitext_root requested ++ py "." ++ str_lower fmt.
Proof.
  intros Hin Hkey Hblock Hmeta. split.
  - rewrite (dump_ncm_stages _ _ _ _ Hin).
    unfold before_output. rewrite Hkey. bind_ok. cbv iota.
    rewrite Hblock. bind_ok. cbv iota.
    by rewrite Hmeta.
  - intros other box meta payload requested final Hrun.
    destruct (before_output_choice _ _ _ _ _ _ Hrun)
      as ((_ & _ & block & _ & _ & _ & Hdecoded) & Hchoose).
    destruct (choose_output_Ok _ _ _ Hchoose) as (d & fmt & -> & Hfmt & ->).
    exists block, d, fmt. split; [done|]. split; [done|]. split; [|done].
    destruct (d !! py "format") as [v|]; simpl in Hfmt; congruence.
Qed.

Lemma metadata_failure_aborts_witness :
  dump_ncm (H := Reference.library) (py "in.ncm") (py "out.mp3")
    (world_of container_no_meta)
  = (Raise IndexError, world_of container_no_meta) ∧
  ∀ other box meta payload requested final,
    before_output (H := Reference.library) core_key meta_key other requested
    = Ok (box, meta, payload, final) →
    ∃ block d fmt,
      recover_meta (H := Reference.library) meta_key block = Ok meta ∧
      meta = PyDict d ∧
      match d !! py "format" with
      | Some v => v = PyStr fmt
      | None => fmt = py "mp3"
      end ∧
      final = if endswith (Reference.str_lower requested)
                   (py "." ++ Reference.str_lower fmt)
              then requested
              else Reference.splitext_root requested ++ py "." ++ Reference.str_lower fmt.
Proof.
  apply (metadata_failure_aborts (H := Reference.library) (py "in.ncm") (py "out.mp3")
           (world_of container_no_meta) container_no_meta
           (spec_table (py "TESTKEY!")) (drop 46 container_no_meta)
           [] (drop 50 container_no_meta) IndexError).
  - reflexivity.
  - vm_compute. reflexivity.
  - reflexivity.
  - reflexivity.
Defined.

(** C2, counterexample: a container with a valid header and key block
    whose metadata block is empty.  The padding remover raises
    [IndexError] on the empty plaintext, and so does [dump_ncm]: there is
    no fallback to the extension [mp3], and no file at [out.mp3]. *)
Lemma metadata_failure_is_fatal :
  (∃ key_box f1 f2,
     read_key_box (H := Reference.library) core_key container_no_meta = Ok (key_box, f1) ∧
     read_meta_block f1 = Ok ([], f2)) ∧
  recover_meta (H := Reference.library) meta_key [] = Raise IndexError ∧
  (∃ w',
     dump_ncm (H := Reference.library) (py "in.ncm") (py "out.mp3")
       (world_of container_no_meta) = (Raise IndexError, w') ∧
     fs w' !! py "out.mp3" = None).
Proof.
  split; [|split].
  - exists (spec_table (py "TESTKEY!")), (drop 46 container_no_meta),
      (drop 50 container_no_meta).
    split; vm_compute; reflexivity.
  - reflexivity.
  - exists (world_of container_no_meta). split; vm_compute; reflexivity.
Qed.





Lemma cover_url_of_raises `{Library} meta e :
  cover_url_of meta = Raise e → e = AttributeError.
Proof.
  unfold cover_url_of, py_get, py_strip.
  destruct meta; try (intros [= <-]; done).
  bind_ok.
  destruct (truthy _); [|done].
  destruct (default PyNone _); by intros [= <-].
Qed.




(** The path [o\0.flac] of the witness cannot be opened: the run gets as
    far as the [open] and leaves the world as it was. *)
Example open_failure_of_example :
  before_output (H := Reference.library) core_key meta_key container_flac
    [111; 0; 46; 102; 108; 97; 99]
  = Ok (spec_table (py "TESTKEY!"),
        PyDict (<[py "albumPic" := PyStr []]> (<[py "format" := PyStr (py "flac")]> ∅)),
        drop 149 container_flac, [111; 0; 46; 102; 108; 97; 99]) ∧
  Reference.open_wb [111; 0; 46; 102; 108; 97; 99] = Some ValueError.
Proof. split; vm_compute; reflexivity. Qed.




(** A container whose metadata names the format [flac] is decoded to a
    path with that extension. *)
Example decode_flac_container :
  dump_ncm (H := Reference.library) (py "in.ncm") (py "out.mp3")
    (world_of container_flac)
  = (Ok (py "out.flac"),
     World (<[py "out.flac" := py "fLaC"]> (fs (world_of container_flac))) []).
Proof. vm_compute. reflexivity. Qed.

(** *** Further properties of the decoder *)

Lemma last_app_replicate {A} (s : list A) (n : nat) (v : A) :
  (1 ≤ n)%nat → last (s ++ replicate n v) = Some v.
Proof.
  intros Hn. destruct n as [|n]; [lia|].
  rewrite replicate_S_end, (assoc_L (++)). apply last_snoc.
Qed.

(** X3: [unpad] inverts PKCS#7 padding: data followed by [n >= 1] copies of
    the byte [n] is cut back to the data. *)
Theorem unpad_pkcs7 (s : list Z) (n : nat) :
  (1 ≤ n)%nat → unpad (s ++ replicate n (Z.of_nat n)) = Ok s.
Proof.
  intros Hn. rewrite (unpad_slice _ (Z.of_nat n)) by by apply last_app_replicate.
  unfold slice_to. rewrite decide_True by lia.
  rewrite length_app, length_replicate.
  replace (Z.to_nat (Z.max (Z.of_nat (length s + n) + - Z.of_nat n) 0)) with (length s) by lia.
  by rewrite take_app_length.
Qed.

Lemma unpad_pkcs7_witness :
  (1 ≤ 3)%nat ∧ unpad ([10; 20] ++ replicate 3 (Z.of_nat 3)) = Ok [10; 20].
Proof. split; [lia|]. apply (unpad_pkcs7 [10; 20] 3). lia. Defined.

(** X4: the keystream has period 256: two decoded bytes 256 positions
    apart XOR to the XOR of the two input bytes, whatever the key. *)
Theorem keystream_period_256 (key_box payload : list Z) (i : nat) (a b : Z) :
  length key_box = 256%nat → Forall is_byte key_box → Forall is_byte payload →
  payload !! i = Some a → payload !! (i + 256)%nat = Some b →
  ∃ out a' b',
    stream_audio key_box payload [] = (Ok key_box, out) ∧
    out !! i = Some a' ∧ out !! (i + 256)%nat = Some b' ∧
    Z.lxor a' b' = Z.lxor a b.
Proof.
  intros Hlen Hkb Hpay Ha Hb.
  exists (xor_keystream key_box 1 payload),
    (Z.lxor a (spec_keystream key_box (1 + Z.of_nat i))),
    (Z.lxor b (spec_keystream key_box (1 + Z.of_nat i))).
  split; [by rewrite stream_audio_ok|].
  split; [by apply xor_keystream_lookup|]. split.
  - rewrite (xor_keystream_lookup _ _ _ _ _ Hb). do 2 f_equal.
    replace (1 + Z.of_nat (i + 256)) with (1 + Z.of_nat i + 256 * 1) by lia.
    apply spec_keystream_period.
  - set (k := spec_keystream _ _).
    rewrite Z.lxor_assoc, <- (Z.lxor_assoc k), (Z.lxor_comm k b).
    by rewrite Z.lxor_assoc, Z.lxor_nilpotent, Z.lxor_0_r.
Qed.

Lemma keystream_period_256_witness :
  length (seqZ 0 256) = 256%nat ∧ Forall is_byte (seqZ 0 256) ∧
  Forall is_byte (replicate 257 7) ∧
  replicate 257 7 !! 0%nat = Some 7 ∧ replicate 257 7 !! (0 + 256)%nat = Some 7 ∧
  ∃ out a' b',
    stream_audio (seqZ 0 256) (replicate 257 7) [] = (Ok (seqZ 0 256), out) ∧
    out !! 0%nat = Some a' ∧ out !! (0 + 256)%nat = Some b' ∧
    Z.lxor a' b' = Z.lxor 7 7.
Proof.
  assert (Forall is_byte (seqZ 0 256)) as Hkb by by_compute.
  assert (Forall is_byte (replicate 257 7)) as Hp by by_compute.
  split; [reflexivity|]. split; [exact Hkb|]. split; [exact Hp|].
  split; [reflexivity|]. split; [reflexivity|].
  apply (keystream_period_256 (seqZ 0 256) (replicate 257 7) 0 7 7);
    [reflexivity|exact Hkb|exact Hp|reflexivity|reflexivity].
Defined.

(** A key written [q] times in a row. *)
Lemma table_at_repeated (key : list Z) (q : nat) (j : Z) :
  key ≠ [] → 0 ≤ j < Z.of_nat q * len key →
  table_at (mjoin (replicate q key)) j = table_at key (j `mod` len key).
Proof.
  intros Hne. assert (0 < len key) as Hpos by (destruct key; [done|simpl length; lia]).
  revert j. induction q as [|q IH]; intros j Hj; [lia|].
  simpl. unfold table_at in *. destruct (decide (j < len key)) as [Hlt|Hge].
  - rewrite lookup_app_l by lia. by rewrite Z.mod_small by lia.
  - rewrite lookup_app_r by lia.
    replace (Z.to_nat j - length key)%nat with (Z.to_nat (j - len key)) by lia.
    rewrite IH by lia.
    replace j with (j - len key + 1 * len key) at 2 by lia.
    by rewrite Z_mod_plus_full.
Qed.

Lemma length_repeated (key : list Z) (q : nat) :
  len (mjoin (replicate q key)) = Z.of_nat q * len key.
Proof.
  induction q as [|q IH]; [done|]. simpl. rewrite length_app. lia.
Qed.

Lemma spec_schedule_repeated (key : list Z) (q n : nat) :
  key ≠ [] → (1 ≤ q)%nat →
  ∃ table carry off,
    spec_schedule (mjoin (replicate q key)) n = (table, carry, off) ∧
    spec_schedule key n = (table, carry, off `mod` len key) ∧
    0 ≤ off < Z.of_nat q * len key.
Proof.
  intros Hne Hq.
  assert (0 < len key) as Hpos by (destruct key; [done|simpl length; lia]).
  induction n as [|n (table & carry & off & Hrep & Hone & Hoff)].
  - exists (seqZ 0 256), 0, 0. split; [reflexivity|]. split; [reflexivity|nia].
  - rewrite !spec_schedule_S, Hrep, Hone.
    rewrite table_at_repeated, length_repeated by done.
    eexists _, _, _. split; [reflexivity|]. split.
    + f_equal. rewrite Z.mod_mod_divide by apply Z.divide_factor_r.
      by rewrite Z.add_mod_idemp_l by lia.
    + apply Z.mod_pos_bound. nia.
Qed.

(** X5: a seed key and the same key written any number of times in a row
    give the same key box: the key offset wraps around, so only the cyclic
    sequence of the key bytes matters. *)
Theorem repeated_key_same_box (key : list Z) (q : nat) :
  1 ≤ len key → (1 ≤ q)%nat →
  build_key_box (mjoin (replicate q key)) = build_key_box key.
Proof.
  intros Hk Hq. assert (key ≠ []) as Hne by (intros ->; simpl in Hk; lia).
  assert (mjoin (replicate q key) ≠ []) as Hne'.
  { intros Hnil. pose proof (length_repeated key q) as Hl. rewrite Hnil in Hl.
    simpl in Hl. nia. }
  destruct (build_key_box_ok _ Hne) as [-> _].
  destruct (build_key_box_ok _ Hne') as [-> _].
  unfold spec_table.
  destruct (spec_schedule_repeated key q 256 Hne Hq)
    as (table & carry & off & -> & -> & _).
  reflexivity.
Qed.

Lemma repeated_key_same_box_witness :
  1 ≤ len [84; 69; 83; 84] ∧ (1 ≤ 3)%nat ∧
  build_key_box (mjoin (replicate 3 [84; 69; 83; 84])) = build_key_box [84; 69; 83; 84].
Proof.
  split; [simpl; lia|]. split; [lia|].
  apply (repeated_key_same_box [84; 69; 83; 84] 3); [simpl; lia|lia].
Defined.

Lemma build_key_box_empty : build_key_box [] = Raise IndexError.
Proof. unfold build_key_box, range. by rewrite seqZ_cons, for_loop_cons by lia. Qed.

Lemma magic_check_passes f :
  take 8 f = magic → py_assert (bool_decide (b2a_hex (take 8 f) = magic_hex)) = Ok ().
Proof. intros ->. reflexivity. Qed.

(** [read_key_box] once the magic has been accepted. *)
Lemma read_key_box_magic `{Library} key f :
  take 8 f = magic →
  read_key_box key f =
  (key_length ← unpack_u32 (take 4 (drop 10 f));
   key_data ← recover_key key (take (Z.to_nat key_length) (drop 14 f));
   key_box ← build_key_box key_data;
   Ok (key_box, drop (Z.to_nat key_length) (drop 14 f))).
Proof.
  intros Hmagic. unfold read_key_box, file_read, file_seek_cur.
  change (Z.to_nat 8) with 8%nat. change (Z.to_nat 2) with 2%nat.
  change (Z.to_nat 4) with 4%nat.
  rewrite (magic_check_passes _ Hmagic). bind_ok.
  rewrite !drop_drop. reflexivity.
Qed.

(** X6: a key block that holds no key bytes behind the 17-byte prefix is
    not rejected by the key recovery; the key schedule then reads
    [key_data[0]] of an empty key, and [dump_ncm] fails with [IndexError]
    before anything is written. *)
Theorem empty_seed_key_fails `{Library} (input_fp output_fp : str) (w : world)
    (container : list Z) (key_length : Z) :
  fs w !! input_fp = Some container →
  take 8 container = magic →
  unpack_u32 (take 4 (drop 10 container)) = Ok key_length →
  recover_key core_key (take (Z.to_nat key_length) (drop 14 container)) = Ok [] →
  dump_ncm input_fp output_fp w = (Raise IndexError, w).
Proof.
  intros Hin Hmagic Hlen Hkey. rewrite (dump_ncm_stages _ _ _ _ Hin).
  unfold before_output. rewrite (read_key_box_magic _ _ Hmagic), Hlen. bind_ok.
  rewrite Hkey. bind_ok. by rewrite build_key_box_empty.
Qed.

Lemma empty_seed_key_fails_witness :
  fs (world_of container_empty_key) !! py "in.ncm" = Some container_empty_key ∧
  take 8 container_empty_key = magic ∧
  unpack_u32 (take 4 (drop 10 container_empty_key)) = Ok 32 ∧
  recover_key (H := Reference.library) core_key
    (take (Z.to_nat 32) (drop 14 container_empty_key)) = Ok [] ∧
  dump_ncm (H := Reference.library) (py "in.ncm") (py "out.mp3")
    (world_of container_empty_key)
  = (Raise IndexError, world_of container_empty_key).
Proof.
  assert (recover_key (H := Reference.library) core_key
            (take (Z.to_nat 32) (drop 14 container_empty_key)) = Ok []) as Hkey
    by (vm_compute; reflexivity).
  split; [reflexivity|]. split; [reflexivity|]. split; [reflexivity|].
  split; [exact Hkey|].
  exact (empty_seed_key_fails (H := Reference.library) (py "in.ncm") (py "out.mp3")
           (world_of container_empty_key) container_empty_key 32
           eq_refl eq_refl eq_refl Hkey).
Defined.

Lemma unpack_u32_short b : (length b < 4)%nat → unpack_u32 b = Raise StructError.
Proof. destruct b as [|? [|? [|? [|? [|? ?]]]]]; simpl; (done || lia). Qed.

(** X7: a container that ends inside one of its three 4-byte length fields
    (of the key block, of the metadata block, of the embedded cover) makes
    [dump_ncm] fail with [struct.error]; nothing is written. *)
Theorem truncated_length_field `{Library} (input_fp output_fp : str) (w : world)
    (container : list Z) :
  fs w !! input_fp = Some container →
  (take 8 container = magic ∧ (length container < 14)%nat) ∨
  (∃ key_box f1,
     read_key_box core_key container = Ok (key_box, f1) ∧ (length f1 < 4)%nat) ∨
  (∃ key_box f1 meta_data f2 meta,
     read_key_box core_key container = Ok (key_box, f1) ∧
     read_meta_block f1 = Ok (meta_data, f2) ∧
     recover_meta meta_key meta_data = Ok meta ∧ (length f2 < 13)%nat) →
  dump_ncm input_fp output_fp w = (Raise StructError, w).
Proof.
  intros Hin Hcut. rewrite (dump_ncm_stages _ _ _ _ Hin). unfold before_output.
  destruct Hcut as [[Hmagic Hshort]|[(key_box & f1 & Hkey & Hshort)
                   |(key_box & f1 & meta_data & f2 & meta & Hkey & Hblock & Hmeta & Hshort)]].
  - rewrite (read_key_box_magic _ _ Hmagic).
    by rewrite unpack_u32_short by (rewrite length_take, length_drop; lia).
  - rewrite Hkey. bind_ok. cbv iota. unfold read_meta_block, file_read.
    by rewrite unpack_u32_short by (rewrite length_take; lia).
  - rewrite Hkey. bind_ok. cbv iota. rewrite Hblock. bind_ok. cbv iota.
    rewrite Hmeta. bind_ok. unfold skip_cover, file_read, file_seek_cur.
    by rewrite unpack_u32_short by (rewrite length_take, !length_drop; lia).
Qed.

Lemma truncated_length_field_witness :
  fs (world_of (take 12 container_flac)) !! py "in.ncm" = Some (take 12 container_flac) ∧
  ((take 8 (take 12 container_flac) = magic ∧ (length (take 12 container_flac) < 14)%nat) ∨
   (∃ key_box f1,
      read_key_box (H := Reference.library) core_key (take 12 container_flac)
      = Ok (key_box, f1) ∧ (length f1 < 4)%nat) ∨
   (∃ key_box f1 meta_data f2 meta,
      read_key_box (H := Reference.library) core_key (take 12 container_flac)
      = Ok (key_box, f1) ∧
      read_meta_block f1 = Ok (meta_data, f2) ∧
      recover_meta (H := Reference.library) meta_key meta_data = Ok meta ∧
      (length f2 < 13)%nat)) ∧
  dump_ncm (H := Reference.library) (py "in.ncm") (py "out.mp3")
    (world_of (take 12 container_flac))
  = (Raise StructError, world_of (take 12 container_flac)).
Proof.
  assert (take 8 (take 12 container_flac) = magic ∧
          (length (take 12 container_flac) < 14)%nat) as Hcut
    by (split; [reflexivity|simpl; lia]).
  split; [reflexivity|]. split; [left; exact Hcut|].
  apply (truncated_length_field (H := Reference.library) (py "in.ncm") (py "out.mp3")
           (world_of (take 12 container_flac)) (take 12 container_flac));
    [reflexivity|left; exact Hcut].
Defined.

(** X8: metadata that is valid JSON but not an object, or an object whose
    [format] entry is not a string, makes [dump_ncm] fail with
    [AttributeError] at line 142, before the output is opened. *)
Theorem metadata_shape_error `{Library} (input_fp output_fp : str) (w : world)
    (container key_box f1 meta_data f2 f3 : list Z) (meta : pyval) :
  fs w !! input_fp = Some container →
  read_key_box core_key container = Ok (key_box, f1) →
  read_meta_block f1 = Ok (meta_data, f2) →
  recover_meta meta_key meta_data = Ok meta →
  skip_cover f2 = Ok f3 →
  (∀ d, meta = PyDict d → ∃ v, d !! py "format" = Some v ∧ ∀ s, v ≠ PyStr s) →
  dump_ncm input_fp output_fp w = (Raise AttributeError, w).
Proof.
  intros Hin Hkey Hblock Hmeta Hskip Hshape.
  rewrite (dump_ncm_stages _ _ _ _ Hin). unfold before_output.
  rewrite Hkey. bind_ok. cbv iota. rewrite Hblock. bind_ok. cbv iota.
  rewrite Hmeta. bind_ok. rewrite Hskip. bind_ok.
  assert (choose_output meta output_fp = Raise AttributeError) as ->; [|done].
  unfold choose_output, py_get. destruct meta as [| | | | |l|d]; try done.
  destruct (Hshape d eq_refl) as (v & -> & Hv). bind_ok. simpl.
  unfold py_lower. destruct v; try done. by destruct (Hv s).
Qed.

Lemma metadata_shape_error_witness :
  fs (world_of container_null_format) !! py "in.ncm" = Some container_null_format ∧
  read_key_box (H := Reference.library) core_key container_null_format
  = Ok (spec_table (py "TESTKEY!"), drop 46 container_null_format) ∧
  read_meta_block (drop 46 container_null_format)
  = Ok (take 66 (drop 50 container_null_format), drop 116 container_null_format) ∧
  recover_meta (H := Reference.library) meta_key (take 66 (drop 50 container_null_format))
  = Ok (PyDict {[ py "format" := PyNone ]}) ∧
  skip_cover (drop 116 container_null_format) = Ok (drop 129 container_null_format) ∧
  (∀ d, PyDict {[ py "format" := PyNone ]} = PyDict d →
        ∃ v, d !! py "format" = Some v ∧ ∀ s, v ≠ PyStr s) ∧
  dump_ncm (H := Reference.library) (py "in.ncm") (py "out.mp3")
    (world_of container_null_format)
  = (Raise AttributeError, world_of container_null_format).
Proof.
  assert (read_key_box (H := Reference.library) core_key container_null_format
          = Ok (spec_table (py "TESTKEY!"), drop 46 container_null_format)) as Hkey
    by (vm_compute; reflexivity).
  assert (recover_meta (H := Reference.library) meta_key
            (take 66 (drop 50 container_null_format))
          = Ok (PyDict {[ py "format" := PyNone ]})) as Hmeta
    by (vm_compute; reflexivity).
  assert (∀ d, PyDict {[ py "format" := PyNone ]} = PyDict d →
               ∃ v, d !! py "format" = Some v ∧ ∀ s, v ≠ PyStr s) as Hshape.
  { intros d [= <-]. exists PyNone. split; [reflexivity|discriminate]. }
  split; [reflexivity|]. split; [exact Hkey|]. split; [reflexivity|].
  split; [exact Hmeta|]. split; [reflexivity|]. split; [exact Hshape|].
  exact (metadata_shape_error (H := Reference.library) (py "in.ncm") (py "out.mp3")
           (world_of container_null_format) container_null_format _ _ _ _ _ _
           eq_refl Hkey eq_refl Hmeta eq_refl Hshape).
Defined.

Lemma endswith_app (a b : str) : endswith (a ++ b) b = true.
Proof.
  assert (∀ s suffix, endswith s suffix
            = bool_decide (s = suffix)
              || match s with [] => false | _ :: s' => endswith s' suffix end)
    as Hstep by (by intros [|??] ?).
  induction a as [|x a IH]; rewrite Hstep.
  - apply orb_true_iff. left. by apply bool_decide_eq_true_2.
  - simpl. by rewrite IH, orb_true_r.
Qed.

(** X9: the output path follows the [format] of the metadata ([mp3] when
    the entry is absent): a requested path that already ends, compared in
    lower case, in a dot and the lower-cased format is kept as it is; any
    other has its extension replaced by the dot and the lower-cased
    format; either way the path that is written to ends, in lower case, in
    that extension.  Of [lower] this much is assumed: on a text that ends
    in a dot and an already lowered extension it leaves that ending in
    place. *)
Theorem output_has_extension `{Library} (meta : pyval) (output_fp final : str) :
  (∀ root fmt,
     endswith (str_lower (root ++ py "." ++ str_lower fmt)) (py "." ++ str_lower fmt)
     = true) →
  choose_output meta output_fp = Ok final →
  ∃ fmt,
    py_get meta (py "format") (PyStr (py "mp3")) = Ok (PyStr fmt) ∧
    (endswith (str_lower output_fp) (py "." ++ str_lower fmt) = true →
     final = output_fp) ∧
    (endswith (str_lower output_fp) (py "." ++ str_lower fmt) = false →
     final = splitext_root output_fp ++ py "." ++ str_lower fmt) ∧
    endswith (str_lower final) (py "." ++ str_lower fmt) = true.
Proof.
  intros Hsuffix. unfold choose_output. intros Hrun.
  apply bind_Ok in Hrun as (v & Hget & Hrun).
  apply bind_Ok in Hrun as (ext & Hext & Hrun).
  unfold py_lower in Hext. destruct v as [| | | |fmt| |]; try done.
  injection Hext as <-. exists fmt. split; [done|].
  destruct (endswith (str_lower output_fp) (py "." ++ str_lower fmt)) eqn:Hends.
  - assert (output_fp = final) as <- by congruence.
    split; [done|]. split; [done|]. exact Hends.
  - assert (splitext_root output_fp ++ py "." ++ str_lower fmt = final) as <-
      by congruence.
    split; [done|]. split; [done|]. apply Hsuffix.
Qed.

Lemma reference_lower_app (a b : str) :
  Reference.str_lower (a ++ b) = Reference.str_lower a ++ Reference.str_lower b.
Proof. apply fmap_app. Qed.

Lemma reference_lower_idem (a : str) :
  Reference.str_lower (Reference.str_lower a) = Reference.str_lower a.
Proof.
  unfold Reference.str_lower. rewrite <- list_fmap_compose.
  apply list_fmap_ext. intros _ c _. simpl. repeat case_decide; lia.
Qed.

Lemma reference_lower_suffix (root fmt : str) :
  endswith (Reference.str_lower (root ++ py "." ++ Reference.str_lower fmt))
    (py "." ++ Reference.str_lower fmt) = true.
Proof.
  rewrite (reference_lower_app root), (reference_lower_app (py ".")).
  rewrite reference_lower_idem.
  change (Reference.str_lower (py ".")) with (py "."). apply endswith_app.
Qed.

Lemma output_has_extension_witness :
  ∃ fmt,
    py_get (PyDict {[ py "format" := PyStr (py "Flac") ]}) (py "format") (PyStr (py "mp3"))
    = Ok (PyStr fmt) ∧
    (endswith (Reference.str_lower (py "dir/Song.FLAC"))
       (py "." ++ Reference.str_lower fmt) = true →
     py "dir/Song.FLAC" = py "dir/Song.FLAC") ∧
    (endswith (Reference.str_lower (py "dir/Song.FLAC"))
       (py "." ++ Reference.str_lower fmt) = false →
     py "dir/Song.FLAC"
     = Reference.splitext_root (py "dir/Song.FLAC") ++ py "." ++ Reference.str_lower fmt) ∧
    endswith (Reference.str_lower (py "dir/Song.FLAC"))
      (py "." ++ Reference.str_lower fmt) = true.
Proof.
  refine (output_has_extension (H := Reference.library)
            (PyDict {[ py "format" := PyStr (py "Flac") ]})
            (py "dir/Song.FLAC") (py "dir/Song.FLAC") reference_lower_suffix _).
  vm_compute. reflexivity.
Defined.

(** The extension is replaced where the requested path does not carry it. *)
Example output_extension_replaced :
  choose_output (H := Reference.library)
    (PyDict {[ py "format" := PyStr (py "FLAC") ]}) (py "dir/Song.MP3")
  = Ok (py "dir/Song.flac").
Proof. vm_compute. reflexivity. Qed.

(** *** The cover download *)

Lemma part_name_differs (save_fn : str) : save_fn ≠ save_fn ++ py ".part".
Proof.
  intros Heq. apply (f_equal length) in Heq. rewrite length_app in Heq.
  simpl in Heq. lia.
Qed.

Lemma write_chunks_insert (tmp : str) (chunks : list (list Z)) (content : list Z)
    (fs : gmap str (list Z)) :
  write_chunks tmp chunks (<[tmp := content]> fs)
  = <[tmp := content ++ mjoin chunks]> fs.
Proof.
  unfold write_chunks. revert content.
  induction chunks as [|chunk chunks IH]; intros content; simpl.
  - by rewrite app_nil_r.
  - case_bool_decide as Hc.
    + rewrite alter_insert_eq, IH. by rewrite (assoc_L (++)).
    + subst chunk. by rewrite IH.
Qed.

(** What one attempt does to the files. *)
Lemma try_download_eq `{Library} (r : reply) (save_fn : str)
    (fs : gmap str (list Z)) :
  try_download r save_fn fs =
  match r with
  | GetRaises e => (inl (Http e), fs)
  | GetReturns resp =>
      if status_ok resp then
        match body_error resp with
        | Some e => (inl (Http e), <[save_fn ++ py ".part" := mjoin (body resp)]> fs)
        | None =>
            (inr (str_lower (str_strip (split_first 59 (default [] (content_type resp))))),
             <[save_fn := mjoin (body resp)]> (delete (save_fn ++ py ".part") fs))
        end
      else (inl (Http HTTPError), fs)
  end.
Proof.
  unfold try_download. destruct r as [e|resp]; [done|].
  destruct (status_ok resp); [|done]. cbv zeta.
  rewrite write_chunks_insert. simpl app.
  destruct (body_error resp); [done|].
  unfold os_replace. by rewrite lookup_insert_eq, delete_insert_eq.
Qed.

Lemma try_download_error `{Library} (r : reply) (save_fn : str)
    (fs : gmap str (list Z)) (e : exc) (fs' : gmap str (list Z)) :
  try_download r save_fn fs = (inl e, fs') →
  reply_error r = Some e ∧
  delete (save_fn ++ py ".part") fs' = delete (save_fn ++ py ".part") fs.
Proof.
  rewrite try_download_eq. unfold reply_error.
  destruct r as [e'|resp]; [by intros [= <- <-]|].
  destruct (status_ok resp); [|by intros [= <- <-]].
  destruct (body_error resp); [|done].
  intros [= <- <-]. by rewrite delete_insert_eq.
Qed.

Lemma try_download_ok `{Library} (r : reply) (save_fn : str)
    (fs : gmap str (list Z)) (mime : str) (fs' : gmap str (list Z)) :
  try_download r save_fn fs = (inr mime, fs') →
  ∃ resp,
    r = GetReturns resp ∧ reply_error r = None ∧
    mime = str_lower (str_strip (split_first 59 (default [] (content_type resp)))) ∧
    fs' = <[save_fn := mjoin (body resp)]> (delete (save_fn ++ py ".part") fs).
Proof.
  rewrite try_download_eq. unfold reply_error.
  destruct r as [e'|resp]; [done|]. destruct (status_ok resp); [|done].
  destruct (body_error resp); [done|]. intros [= <- <-]. by exists resp.
Qed.

Lemma try_download_fails `{Library} (r : reply) (save_fn : str)
    (fs : gmap str (list Z)) :
  is_Some (reply_error r) →
  ∃ e, reply_error r = Some e ∧
       try_download r save_fn fs = (inl e, (try_download r save_fn fs).2).
Proof.
  intros [e He]. exists e. split; [done|].
  destruct (try_download r save_fn fs) as [[e'|mime] fs'] eqn:Htd.
  - apply try_download_error in Htd as [He' _]. simpl. congruence.
  - apply try_download_ok in Htd as (resp & _ & Hnone & _). congruence.
Qed.

Lemma try_download_succeeds `{Library} (resp : response) (save_fn : str)
    (fs : gmap str (list Z)) :
  status_ok resp = true → body_error resp = None →
  try_download (GetReturns resp) save_fn fs
  = (inr (str_lower (str_strip (split_first 59 (default [] (content_type resp))))),
     <[save_fn := mjoin (body resp)]> (delete (save_fn ++ py ".part") fs)).
Proof. intros Hs Hb. rewrite try_download_eq. by rewrite Hs, Hb. Qed.

(** Whatever the session answers: the loop makes at most one request per
    attempt, a failure leaves every file but the [.part] file as it was,
    and a success installs the whole body of the answer just received. *)
Lemma download_loop_frame `{Library} (session_get : str → nat → reply)
    (url save_fn : str) (retries : Z) (attempts : list Z) :
  ∀ (last_exc : option exc) (st : net_state) r st',
    download_loop session_get url save_fn retries attempts last_exc st = (r, st') →
    (requests st ≤ requests st' ≤ requests st + length attempts)%nat ∧
    match r with
    | inl _ =>
        delete (save_fn ++ py ".part") (files st')
        = delete (save_fn ++ py ".part") (files st)
    | inr mime =>
        ∃ resp,
          session_get url (Nat.pred (requests st')) = GetReturns resp ∧
          reply_error (GetReturns resp) = None ∧
          mime = str_lower (str_strip (split_first 59 (default [] (content_type resp)))) ∧
          files st' = <[save_fn := mjoin (body resp)]>
                        (delete (save_fn ++ py ".part") (files st))
    end.
Proof.
  induction attempts as [|attempt attempts IH]; intros last_exc st r st' Heq.
  - simpl in Heq. injection Heq as <- <-. split; [simpl; lia|done].
  - simpl in Heq.
    destruct (try_download (session_get url (requests st)) save_fn (files st))
      as [[e|mime] fs0] eqn:Htd.
    + apply try_download_error in Htd as [_ Hfs0].
      destruct (decide (attempt < retries)); [destruct (decide (attempt < nap_limit))|].
      * apply IH in Heq as [Hreq Hr]. simpl in Hreq, Hr. split; [simpl; lia|].
        destruct r as [e'|mime]; [congruence|].
        destruct Hr as (resp & ? & ? & ? & ->). exists resp. by rewrite Hfs0.
      * injection Heq as <- <-. simpl. split; [lia|done].
      * injection Heq as <- <-. simpl. split; [lia|done].
    + apply try_download_ok in Htd as (resp & Hr & Hnone & -> & ->).
      injection Heq as <- <-. simpl. split; [lia|].
      exists resp. rewrite Hr in Hnone. done.
Qed.

(** When every remaining attempt fails. *)
Lemma download_loop_fail `{Library} (session_get : str → nat → reply)
    (url save_fn : str) (retries : Z) (n : nat) :
  ∀ (a : Z) (last_exc : option exc) (st : net_state),
    a + Z.of_nat n = retries → retries ≤ nap_limit →
    (∀ j : nat, (j ≤ n)%nat →
       is_Some (reply_error (session_get url (requests st + j)%nat))) →
    ∃ e fs_prev,
      reply_error (session_get url (requests st + n)%nat) = Some e ∧
      delete (save_fn ++ py ".part") fs_prev
      = delete (save_fn ++ py ".part") (files st) ∧
      download_loop session_get url save_fn retries (seqZ a (Z.of_nat (S n))) last_exc st
      = (inl (RuntimeError e),
         NetState
           (try_download (session_get url (requests st + n)%nat) save_fn fs_prev).2
           (requests st + S n) (slept st ++ seqZ a (Z.of_nat n))).
Proof.
  induction n as [|n IH]; intros a last_exc st Ha Hnap Hfail.
  - destruct (try_download_fails (session_get url (requests st)) save_fn (files st))
      as (e & He & Htd).
    { specialize (Hfail 0%nat). rewrite Nat.add_0_r in Hfail. apply Hfail. lia. }
    exists e, (files st). rewrite Nat.add_0_r. split; [done|]. split; [done|].
    change (seqZ a (Z.of_nat 1)) with [a]. simpl. rewrite Htd.
    rewrite decide_False by lia. rewrite app_nil_r. do 2 f_equal. lia.
  - destruct (try_download_fails (session_get url (requests st)) save_fn (files st))
      as (e & He & Htd).
    { specialize (Hfail 0%nat). rewrite Nat.add_0_r in Hfail. apply Hfail. lia. }
    rewrite (seqZ_cons a (Z.of_nat (S (S n)))) by lia.
    replace (Z.pred (Z.of_nat (S (S n)))) with (Z.of_nat (S n)) by lia.
    simpl download_loop. rewrite Htd. rewrite !decide_True by lia.
    pose proof (try_download_error _ _ _ _ _ Htd) as [_ Hfs0].
    set (fs0 := (try_download (session_get url (requests st)) save_fn (files st)).2)
      in *.
    destruct (IH (Z.succ a) (Some e)
                (NetState fs0 (S (requests st)) (slept st ++ [a])))
      as (e' & fs_prev & He' & Hprev & Hloop).
    { lia. }
    { lia. }
    { intros j Hj. simpl. replace (S (requests st + j)) with (requests st + S j)%nat by lia.
      apply Hfail. lia. }
    simpl in He', Hprev, Hloop.
    replace (S (requests st + n)) with (requests st + S n)%nat in * by lia.
    exists e', fs_prev. split; [done|]. split; [congruence|].
    simpl. rewrite Hloop. do 2 f_equal.
    + lia.
    + rewrite <- (assoc_L (++)). f_equal.
      rewrite (seqZ_cons a (Z.of_nat (S n))) by lia.
      simpl. do 2 f_equal. lia.
Qed.

(** When the attempts fail up to one that succeeds. *)
Lemma download_loop_success `{Library} (session_get : str → nat → reply)
    (url save_fn : str) (retries : Z) (resp : response) (k : nat) :
  ∀ (a count : Z) (last_exc : option exc) (st : net_state),
    Z.of_nat k < count → a + Z.of_nat k ≤ retries → a + Z.of_nat k ≤ nap_limit →
    (∀ j : nat, (j < k)%nat →
       is_Some (reply_error (session_get url (requests st + j)%nat))) →
    session_get url (requests st + k)%nat = GetReturns resp →
    status_ok resp = true → body_error resp = None →
    download_loop session_get url save_fn retries (seqZ a count) last_exc st
    = (inr (str_lower (str_strip (split_first 59 (default [] (content_type resp))))),
       NetState
         (<[save_fn := mjoin (body resp)]> (delete (save_fn ++ py ".part") (files st)))
         (requests st + S k) (slept st ++ seqZ a (Z.of_nat k))).
Proof.
  induction k as [|k IH]; intros a count last_exc st Hcount Ha Hnap Hfail Hget Hs Hb.
  - rewrite (seqZ_cons a count) by lia. simpl download_loop.
    rewrite Nat.add_0_r in Hget. rewrite Hget, (try_download_succeeds _ _ _ Hs Hb).
    rewrite app_nil_r. do 2 f_equal. lia.
  - destruct (try_download_fails (session_get url (requests st)) save_fn (files st))
      as (e & He & Htd).
    { specialize (Hfail 0%nat). rewrite Nat.add_0_r in Hfail. apply Hfail. lia. }
    rewrite (seqZ_cons a count) by lia.
    simpl download_loop. rewrite Htd. rewrite !decide_True by lia.
    pose proof (try_download_error _ _ _ _ _ Htd) as [_ Hfs0].
    set (fs0 := (try_download (session_get url (requests st)) save_fn (files st)).2)
      in *.
    simpl. rewrite (IH (Z.succ a) (Z.pred count)); simpl.
    + rewrite Hfs0. do 2 f_equal; [lia|].
      rewrite <- (assoc_L (++)). f_equal.
      rewrite (seqZ_cons a (Z.of_nat (S k))) by lia.
      simpl. do 2 f_equal. lia.
    + lia.
    + lia.
    + lia.
    + intros j Hj. replace (S (requests st + j)) with (requests st + S j)%nat by lia.
      apply Hfail. lia.
    + replace (S (requests st + k)) with (requests st + S k)%nat by lia. done.
    + done.
    + done.
Qed.

(** X10: [download_pic] with [retries <= 0] makes no request at all: the
    loop body never runs and the final [raise last_exc] raises [None], a
    [TypeError]. *)
Theorem download_pic_no_retries `{Library} (session_get : str → nat → reply)
    (url save_fn : str) (retries : Z) (st : net_state) :
  retries ≤ 0 →
  download_pic session_get url save_fn retries st = (inl TypeError, st).
Proof.
  intros Hr. unfold download_pic, range.
  replace (retries + 1 - 1) with retries by lia.
  unfold seqZ. by replace (Z.to_nat retries) with 0%nat by lia.
Qed.

Lemma download_pic_no_retries_witness :
  download_pic (H := Reference.library) (fun _ _ => GetRaises Timeout)
    (py "http://host/a.jpg") (py "c.img") 0 (NetState ∅ 0 [])
  = (inl TypeError, NetState ∅ 0 []).
Proof.
  apply (download_pic_no_retries (H := Reference.library) (fun _ _ => GetRaises Timeout)
           (py "http://host/a.jpg") (py "c.img") 0 (NetState ∅ 0 [])).
  lia.
Defined.


Lemma delete_eq_lookup (tmp p : str) (m m' : gmap str (list Z)) :
  delete tmp m' = delete tmp m → p ≠ tmp → m' !! p = m !! p.
Proof.
  intros Heq Hp.
  rewrite <- (lookup_delete_ne m' tmp p), <- (lookup_delete_ne m tmp p) by done.
  by rewrite Heq.
Qed.

Lemma reply_error_None (resp : response) :
  reply_error (GetReturns resp) = None →
  status_ok resp = true ∧ body_error resp = None.
Proof.
  simpl. destruct (status_ok resp); [|done].
  destruct (body_error resp); [done|]. done.
Qed.

Lemma download_pic_effect `{Library} (session_get : str → nat → reply)
    (url save_fn : str) (retries : Z) (st : net_state) :
  let '(r, st') := download_pic session_get url save_fn retries st in
  (requests st ≤ requests st' ≤ requests st + Z.to_nat retries)%nat ∧
  (∀ p, p ≠ save_fn ++ py ".part" → p ≠ save_fn → files st' !! p = files st !! p) ∧
  match r with
  | inl _ => files st' !! save_fn = files st !! save_fn
  | inr mime =>
      ∃ resp,
        session_get url (Nat.pred (requests st')) = GetReturns resp ∧
        status_ok resp = true ∧ body_error resp = None ∧
        mime = str_lower (str_strip (split_first 59 (default [] (content_type resp)))) ∧
        files st' !! save_fn = Some (mjoin (body resp)) ∧
        files st' !! (save_fn ++ py ".part") = None
  end.
Proof.
  destruct (download_pic session_get url save_fn retries st) as [r st'] eqn:Heq.
  unfold download_pic in Heq. apply download_loop_frame in Heq as [Hreq Hr].
  unfold range in Hreq. rewrite length_seqZ in Hreq.
  split; [lia|]. destruct r as [e|mime].
  - split.
    + intros p Hp _. by apply (delete_eq_lookup (save_fn ++ py ".part")).
    + apply (delete_eq_lookup (save_fn ++ py ".part")); [done|].
      apply part_name_differs.
  - destruct Hr as (resp & Hget & Hnone & Hmime & Hfiles).
    apply reply_error_None in Hnone as [Hs Hb]. split.
    + intros p Hp Hp'. rewrite Hfiles.
      by rewrite lookup_insert_ne, lookup_delete_ne.
    + exists resp. rewrite Hfiles. repeat split; try done.
      * by rewrite lookup_insert_eq.
      * rewrite lookup_insert_ne by apply part_name_differs.
        by rewrite lookup_delete_eq.
Qed.

(** X11: whatever the server answers and however many attempts are made,
    [download_pic] makes at most [retries] requests, touches no file other
    than [save_fn] and [save_fn + ".part"], leaves [save_fn] as it was when
    it raises, and when it returns [save_fn] holds the complete body of the
    last answer, the [.part] file is gone and the returned type is the
    lower-cased, stripped first field of that answer's Content-Type. *)
Theorem download_pic_atomic `{Library} (session_get : str → nat → reply)
    (url save_fn : str) (retries : Z) (st : net_state) :
  let '(r, st') := download_pic session_get url save_fn retries st in
  (requests st ≤ requests st' ≤ requests st + Z.to_nat retries)%nat ∧
  (∀ p, p ≠ save_fn ++ py ".part" → p ≠ save_fn → files st' !! p = files st !! p) ∧
  match r with
  | inl _ => files st' !! save_fn = files st !! save_fn
  | inr mime =>
      ∃ resp,
        session_get url (Nat.pred (requests st')) = GetReturns resp ∧
        status_ok resp = true ∧ body_error resp = None ∧
        mime = str_lower (str_strip (split_first 59 (default [] (content_type resp)))) ∧
        files st' !! save_fn = Some (mjoin (body resp)) ∧
        files st' !! (save_fn ++ py ".part") = None
  end.
Proof. apply download_pic_effect. Qed.

Lemma download_pic_failure `{Library} (session_get : str → nat → reply)
    (url save_fn : str) (retries : Z) (st : net_state) :
  1 ≤ retries ≤ nap_limit →
  (∀ j : nat, Z.of_nat j < retries →
     is_Some (reply_error (session_get url (requests st + j)%nat))) →
  ∃ e st',
    reply_error (session_get url (requests st + Z.to_nat retries - 1)%nat) = Some e ∧
    download_pic session_get url save_fn retries st = (inl (RuntimeError e), st') ∧
    requests st' = (requests st + Z.to_nat retries)%nat ∧
    slept st' = slept st ++ seqZ 1 (retries - 1) ∧
    ∀ p, p ≠ save_fn ++ py ".part" → files st' !! p = files st !! p.
Proof.
  intros Hr Hfail.
  destruct (download_loop_fail session_get url save_fn retries
              (Z.to_nat retries - 1) 1 None st)
    as (e & fs_prev & He & Hprev & Hloop).
  { lia. }
  { lia. }
  { intros j Hj. apply Hfail. lia. }
  replace (requests st + Z.to_nat retries - 1)%nat
    with (requests st + (Z.to_nat retries - 1))%nat by lia.
  exists e. eexists. split; [exact He|]. split.
  { unfold download_pic, range. rewrite <- Hloop. do 2 f_equal. lia. }
  simpl. split; [lia|]. split; [do 2 f_equal; lia|].
  intros p Hp.
  destruct (try_download_fails
              (session_get url (requests st + (Z.to_nat retries - 1))%nat)
              save_fn fs_prev) as (e' & _ & Htd); [by rewrite He|].
  apply try_download_error in Htd as [_ Hfs].
  apply (delete_eq_lookup (save_fn ++ py ".part")); [congruence|done].
Qed.

(** X12: when every one of [retries] attempts fails, for [retries] from 1
    to 34 (every nap is one that [time.sleep] takes), [download_pic]
    raises [RuntimeError] caused by the last attempt's exception, after
    exactly [retries] requests and [retries - 1] naps (exponents 1 to
    [retries - 1]: none after the last attempt), and no file other than the
    [.part] file has changed. *)
Theorem download_pic_gives_up `{Library} (session_get : str → nat → reply)
    (url save_fn : str) (retries : Z) (st : net_state) :
  1 ≤ retries ≤ nap_limit →
  (∀ j : nat, Z.of_nat j < retries →
     is_Some (reply_error (session_get url (requests st + j)%nat))) →
  ∃ e st',
    reply_error (session_get url (requests st + Z.to_nat retries - 1)%nat) = Some e ∧
    download_pic session_get url save_fn retries st = (inl (RuntimeError e), st') ∧
    requests st' = (requests st + Z.to_nat retries)%nat ∧
    slept st' = slept st ++ seqZ 1 (retries - 1) ∧
    ∀ p, p ≠ save_fn ++ py ".part" → files st' !! p = files st !! p.
Proof. apply download_pic_failure. Qed.

Lemma download_pic_gives_up_witness :
  ∃ e st',
    reply_error (GetRaises Timeout) = Some e ∧
    download_pic (H := Reference.library) (fun _ _ => GetRaises Timeout)
      (py "http://host/a.jpg") (py "out/.cover_a.mp3.img") 3 (NetState ∅ 0 [])
    = (inl (RuntimeError e), st') ∧
    requests st' = 3%nat ∧
    slept st' = [1; 2] ∧
    ∀ p, p ≠ py "out/.cover_a.mp3.img" ++ py ".part" → files st' !! p = (∅ : gmap str (list Z)) !! p.
Proof.
  apply (download_pic_gives_up (H := Reference.library) (fun _ _ => GetRaises Timeout)
           (py "http://host/a.jpg") (py "out/.cover_a.mp3.img") 3 (NetState ∅ 0 [])).
  - unfold nap_limit. lia.
  - intros j _. by eexists.
Defined.

Lemma download_pic_success `{Library} (session_get : str → nat → reply)
    (url save_fn : str) (retries : Z) (st : net_state) (k : nat) (resp : response) :
  Z.of_nat k < retries →
  Z.of_nat k < nap_limit →
  (∀ j : nat, (j < k)%nat →
     is_Some (reply_error (session_get url (requests st + j)%nat))) →
  session_get url (requests st + k)%nat = GetReturns resp →
  status_ok resp = true →
  body_error resp = None →
  download_pic session_get url save_fn retries st
  = (inr (str_lower (str_strip (split_first 59 (default [] (content_type resp))))),
     NetState
       (<[save_fn := mjoin (body resp)]> (delete (save_fn ++ py ".part") (files st)))
       (requests st + S k) (slept st ++ seqZ 1 (Z.of_nat k))).
Proof.
  intros Hk Hnap Hfail Hget Hs Hb. unfold download_pic, range.
  apply download_loop_success; try done; lia.
Qed.

(** X13: when attempt [k + 1 <= retries] is the first whose answer passes
    [raise_for_status] and streams to its end, and [k <= 33] (the naps
    before it are ones that [time.sleep] takes), [download_pic] returns
    that answer's type after [k + 1] requests and [k] naps, [save_fn]
    holds the joined chunks of that answer, the [.part] file does not
    exist and every other file is as before. *)
Theorem download_pic_first_success `{Library} (session_get : str → nat → reply)
    (url save_fn : str) (retries : Z) (st : net_state) (k : nat) (resp : response) :
  Z.of_nat k < retries →
  Z.of_nat k < nap_limit →
  (∀ j : nat, (j < k)%nat →
     is_Some (reply_error (session_get url (requests st + j)%nat))) →
  session_get url (requests st + k)%nat = GetReturns resp →
  status_ok resp = true →
  body_error resp = None →
  download_pic session_get url save_fn retries st
  = (inr (str_lower (str_strip (split_first 59 (default [] (content_type resp))))),
     NetState
       (<[save_fn := mjoin (body resp)]> (delete (save_fn ++ py ".part") (files st)))
       (requests st + S k) (slept st ++ seqZ 1 (Z.of_nat k))).
Proof. apply download_pic_success. Qed.

Lemma download_pic_first_success_witness :
  download_pic (H := Reference.library)
    (fun _ n => if decide (n = 1%nat)
                then GetReturns (Response true (Some (py "Image/JPEG; q=1"))
                                   [[255; 216]; []; [255; 217]] None)
                else GetRaises ConnectionError)
    (py "http://host/a.jpg") (py "c.img") 3
    (NetState {[ py "c.img.part" := [7] ]} 0 [])
  = (inr (py "image/jpeg"),
     NetState {[ py "c.img" := [255; 216; 255; 217] ]} 2 [1]).
Proof.
  refine (eq_trans
            (download_pic_first_success (H := Reference.library)
               (fun _ n => if decide (n = 1%nat)
                           then GetReturns (Response true (Some (py "Image/JPEG; q=1"))
                                              [[255; 216]; []; [255; 217]] None)
                           else GetRaises ConnectionError)
               (py "http://host/a.jpg") (py "c.img") 3
               (NetState {[ py "c.img.part" := [7] ]} 0 []) 1
               (Response true (Some (py "Image/JPEG; q=1"))
                  [[255; 216]; []; [255; 217]] None) _ _ _ _ _ _) _).
  - lia.
  - unfold nap_limit. lia.
  - intros j Hj. assert (j = 0%nat) as -> by lia. by eexists.
  - reflexivity.
  - reflexivity.
  - reflexivity.
  - vm_compute. reflexivity.
Defined.

(** X14: the [.part] file is not cleaned up: when, for [retries] from 1
    to 34, the last of the failing attempts breaks off while the body is
    streamed, [download_pic] raises and leaves [save_fn + ".part"] behind
    with the chunks received in that attempt. *)
Theorem download_pic_leaves_part_file `{Library} (session_get : str → nat → reply)
    (url save_fn : str) (retries : Z) (st : net_state) (resp : response)
    (e : http_error) :
  1 ≤ retries ≤ nap_limit →
  (∀ j : nat, Z.of_nat j < retries - 1 →
     is_Some (reply_error (session_get url (requests st + j)%nat))) →
  session_get url (requests st + (Z.to_nat retries - 1))%nat = GetReturns resp →
  status_ok resp = true →
  body_error resp = Some e →
  ∃ st',
    download_pic session_get url save_fn retries st
    = (inl (RuntimeError (Http e)), st') ∧
    files st' = <[save_fn ++ py ".part" := mjoin (body resp)]> (files st).
Proof.
  intros Hr Hfail Hget Hs Hb.
  assert (Hlast : reply_error (GetReturns resp) = Some (Http e)).
  { simpl. by rewrite Hs, Hb. }
  destruct (download_loop_fail session_get url save_fn retries
              (Z.to_nat retries - 1) 1 None st)
    as (e' & fs_prev & He & Hprev & Hloop).
  { lia. }
  { lia. }
  { intros j Hj. destruct (decide (j = Z.to_nat retries - 1)%nat) as [->|Hne].
    - rewrite Hget, Hlast. by eexists.
    - apply Hfail. lia. }
  rewrite Hget in He, Hloop. rewrite Hlast in He. injection He as <-.
  eexists. split.
  { unfold download_pic, range. rewrite <- Hloop. do 2 f_equal. lia. }
  rewrite try_download_eq, Hs, Hb. simpl.
  rewrite <- (insert_delete_eq fs_prev), <- (insert_delete_eq (files st)).
  by rewrite Hprev.
Qed.

Lemma download_pic_leaves_part_file_witness :
  ∃ st',
    download_pic (H := Reference.library)
      (fun _ _ => GetReturns (Response true None [[1; 2]; [3]] (Some ChunkedEncodingError)))
      (py "http://host/a.jpg") (py "c.img") 2 (NetState ∅ 0 [])
    = (inl (RuntimeError (Http ChunkedEncodingError)), st') ∧
    files st' = <[py "c.img" ++ py ".part" := mjoin [[1; 2]; [3]]]> ∅.
Proof.
  apply (download_pic_leaves_part_file (H := Reference.library)
           (fun _ _ => GetReturns (Response true None [[1; 2]; [3]] (Some ChunkedEncodingError)))
           (py "http://host/a.jpg") (py "c.img") 2 (NetState ∅ 0 [])
           (Response true None [[1; 2]; [3]] (Some ChunkedEncodingError))
           ChunkedEncodingError).
  - unfold nap_limit. lia.
  - intros j _. by eexists.
  - reflexivity.
  - reflexivity.
  - reflexivity.
Defined.

(** *** The cover tag and the cover stage *)

(** What [add_cover_2_mp3] leaves alone. *)
Lemma add_cover_effect `{Library} `{Eyed3} (mp3_fp pic_fp mime_type : str)
    (fs : gmap str (list Z)) :
  let '(r, fs', _) := add_cover_2_mp3 mp3_fp pic_fp mime_type fs in
  (∀ p, p ≠ mp3_fp → fs' !! p = fs !! p) ∧
  (endswith (str_lower mp3_fp) (py ".mp3") = false ∨
   mime_type ∉ [py "image/jpeg"; py "image/jpg"; py "image/png"] →
   r = inr () ∧ fs' = fs) ∧
  (r ≠ inr () → fs' = fs).
Proof.
  unfold add_cover_2_mp3.
  destruct (endswith (str_lower mp3_fp) (py ".mp3")) eqn:Hext; simpl;
    [|by split; [|split]].
  case_bool_decide as Hmime; simpl; [|by split; [|split]].
  assert (Hguard : ¬ (true = false ∨
                      mime_type ∉ [py "image/jpeg"; py "image/jpg"; py "image/png"])).
  { by intros [|]. }
  destruct (eyed3_load mp3_fp fs) as [e|[audio|]];
    [by split; [|split]| |by split; [|split]].
  destruct (fs !! pic_fp) as [data|]; [|by split; [|split]].
  destruct (eyed3_embed audio data mime_type) as [e|content]; [by split; [|split]|].
  split; [|by split].
  intros p Hp. by rewrite lookup_insert_ne.
Qed.

Lemma download_loop_requests `{Library} (session_get : str → nat → reply)
    (url save_fn : str) (retries attempt : Z) (attempts : list Z)
    (last_exc : option exc) (st : net_state) :
  (requests st
   < requests (download_loop session_get url save_fn retries (attempt :: attempts)
                 last_exc st).2)%nat.
Proof.
  simpl.
  destruct (try_download (session_get url (requests st)) save_fn (files st))
    as [[e|mime] fs0]; [|simpl; lia].
  destruct (decide (attempt < retries)); [|simpl; lia].
  destruct (decide (attempt < nap_limit)); [|simpl; lia].
  destruct (download_loop session_get url save_fn retries attempts (Some e)
              (NetState fs0 (S (requests st)) (slept st ++ [attempt])))
    as [r st'] eqn:Heq.
  apply download_loop_frame in Heq as [Hreq _]. simpl in *. lia.
Qed.

Lemma download_pic_requests `{Library} (session_get : str → nat → reply)
    (url save_fn : str) (st : net_state) :
  (requests st < requests (download_pic session_get url save_fn 3 st).2)%nat.
Proof.
  unfold download_pic. change (range 1 (3 + 1)) with (1 :: seqZ 2 2).
  apply download_loop_requests.
Qed.

Lemma cover_handling_effect `{Library} `{Eyed3} `{OsPath}
    (session_get : str → nat → reply) (cover_url output_fp : str) (st : net_state) :
  let st' := (cover_handling session_get cover_url output_fp st).1 in
  let tmp_file := cover_tmp_file cover_url output_fp in
  (requests st < requests st' ≤ requests st + 3)%nat ∧
  files st' !! tmp_file = None ∧
  (∀ p, p ≠ output_fp → p ≠ tmp_file → p ≠ tmp_file ++ py ".part" →
        files st' !! p = files st !! p) ∧
  (endswith (str_lower output_fp) (py ".mp3") = false →
   output_fp ≠ tmp_file → output_fp ≠ tmp_file ++ py ".part" →
   files st' !! output_fp = files st !! output_fp).
Proof.
  cbv zeta. unfold cover_handling. cbv zeta.
  set (tmp_file := cover_tmp_file cover_url output_fp).
  pose proof (download_pic_effect session_get cover_url tmp_file 3 st) as Hdl.
  pose proof (download_pic_requests session_get cover_url tmp_file st) as Hlt.
  destruct (download_pic session_get cover_url tmp_file 3 st) as [r st1].
  destruct Hdl as (Hreq & Hother & Hr). simpl in Hlt.
  destruct r as [e|mime].
  - simpl. split; [lia|]. split; [by rewrite lookup_delete_eq|]. split.
    + intros p _ Hp Hpart. rewrite lookup_delete_ne by done. by apply Hother.
    + intros _ Hp Hpart. rewrite lookup_delete_ne by done. by apply Hother.
  - pose proof (add_cover_effect output_fp tmp_file mime (files st1)) as Hadd.
    destruct (add_cover_2_mp3 output_fp tmp_file mime (files st1)) as [[r' fs2] ws].
    destruct Hadd as (Hframe & Hguard & _).
    assert (Hshape : ∀ p, p ≠ tmp_file → p ≠ tmp_file ++ py ".part" →
                          (p = output_fp →
                           endswith (str_lower output_fp) (py ".mp3") = false) →
                          delete tmp_file fs2 !! p = files st !! p).
    { intros p Hp Hpart Hout. rewrite lookup_delete_ne by done.
      destruct (decide (p = output_fp)) as [->|Hne].
      - destruct Hguard as [_ ->]; [left; by apply Hout|]. by apply Hother.
      - rewrite Hframe by done. by apply Hother. }
    destruct r' as [e'|u]; simpl.
    + split; [lia|]. split; [by rewrite lookup_delete_eq|]. split.
      * intros p Hout Hp Hpart. by apply Hshape.
      * intros Hext Hp Hpart. by apply Hshape.
    + split; [lia|]. split; [by rewrite lookup_delete_eq|]. split.
      * intros p Hout Hp Hpart. by apply Hshape.
      * intros Hext Hp Hpart. by apply Hshape.
Qed.

(** X16: the cover stage (lines 161-180) makes at most three requests,
    never leaves its temporary file behind, and changes no file other than
    the audio file, the temporary file and the temporary file's [.part]
    companion; without a URL it does nothing but warn. *)
Theorem cover_step_cleans_up `{Library} `{Eyed3} `{OsPath}
    (session_get : str → nat → reply) (cover_url output_fp : str) (st : net_state) :
  let '(st', warnings) := cover_step session_get cover_url output_fp st in
  let tmp_file := cover_tmp_file cover_url output_fp in
  (requests st ≤ requests st' ≤ requests st + 3)%nat ∧
  (cover_url ≠ [] → files st' !! tmp_file = None) ∧
  (∀ p, p ≠ output_fp → p ≠ tmp_file → p ≠ tmp_file ++ py ".part" →
        files st' !! p = files st !! p) ∧
  (cover_url = [] → st' = st ∧ warnings = [NoCoverUrl]).
Proof.
  unfold cover_step. case_bool_decide as Hurl.
  - pose proof (cover_handling_effect session_get cover_url output_fp st) as Heff.
    destruct (cover_handling session_get cover_url output_fp st) as [st' ws].
    cbv zeta in Heff. simpl in Heff. destruct Heff as (Hreq & Htmp & Hother & _).
    cbv zeta. split; [lia|]. split; [done|]. split; [done|]. done.
  - cbv zeta. split; [lia|]. split; [done|]. split; [done|]. done.
Qed.

(** X17: an output that is not an [.mp3] never receives the cover, yet the
    cover is still requested: with a non-empty URL and an output path not
    ending in [.mp3] (so every FLAC), the stage makes at least one request
    and leaves the audio file exactly as it was. *)
Theorem cover_step_skips_other_formats `{Library} `{Eyed3} `{OsPath}
    (session_get : str → nat → reply) (cover_url output_fp : str) (st : net_state) :
  cover_url ≠ [] →
  endswith (str_lower output_fp) (py ".mp3") = false →
  output_fp ≠ cover_tmp_file cover_url output_fp →
  output_fp ≠ cover_tmp_file cover_url output_fp ++ py ".part" →
  let st' := (cover_step session_get cover_url output_fp st).1 in
  (requests st < requests st')%nat ∧
  files st' !! output_fp = files st !! output_fp.
Proof.
  intros Hurl Hext Htmp Hpart. cbv zeta. unfold cover_step.
  rewrite bool_decide_eq_true_2 by done.
  pose proof (cover_handling_effect session_get cover_url output_fp st) as Heff.
  cbv zeta in Heff. destruct Heff as (Hreq & _ & _ & Hout).
  split; [lia|]. by apply Hout.
Qed.

Lemma cover_step_skips_other_formats_witness :
  let st := NetState {[ py "out/a.flac" := [102; 76; 97; 67] ]} 0 [] in
  let st' :=
    (@cover_step Reference.library ReferenceOs.eyed3 ReferenceOs.os_path
       (fun _ _ => GetReturns (Response true (Some (py "image/jpeg")) [[255; 216]] None))
       (py "http://host/c.jpg") (py "out/a.flac") st).1 in
  (requests st < requests st')%nat ∧
  files st' !! py "out/a.flac" = files st !! py "out/a.flac".
Proof.
  apply (@cover_step_skips_other_formats
           Reference.library ReferenceOs.eyed3 ReferenceOs.os_path
           (fun _ _ => GetReturns (Response true (Some (py "image/jpeg")) [[255; 216]] None))
           (py "http://host/c.jpg") (py "out/a.flac")
           (NetState {[ py "out/a.flac" := [102; 76; 97; 67] ]} 0 [])).
  - discriminate.
  - vm_compute. reflexivity.
  - vm_compute. discriminate.
  - vm_compute. discriminate.
Defined.

(** *** One conversion *)



(** An output directory whose name holds a NUL character: the output
    cannot be opened, nothing is written and the call returns [False]. *)
Example convert_one_unwritable_output :
  @_convert_one Reference.library ReferenceOs.os_path (py "in.ncm") [111; 0] 80 []
    (world_of container_flac)
  = (false, world_of container_flac, 0%nat, [(py "in.ncm", ValueError)]).
Proof. vm_compute. reflexivity. Qed.



(** *** The cover stage, case by case *)

(** X21: a cover whose type is not image/jpeg, image/jpg or image/png (a
    WEBP, say) is downloaded and thrown away: the stage warns about the
    type when the output is an [.mp3] and says nothing otherwise, the
    temporary file and its [.part] companion are gone, whatever they held
    before, and every other file keeps its content. *)
Theorem cover_step_unsupported_type `{Library} `{Eyed3} `{OsPath}
    (session_get : str → nat → reply) (cover_url output_fp : str) (st : net_state)
    (k : nat) (resp : response) :
  let tmp_file := cover_tmp_file cover_url output_fp in
  let mime := str_lower (str_strip (split_first 59 (default [] (content_type resp)))) in
  cover_url ≠ [] →
  (k < 3)%nat →
  (∀ j : nat, (j < k)%nat →
     is_Some (reply_error (session_get cover_url (requests st + j)%nat))) →
  session_get cover_url (requests st + k)%nat = GetReturns resp →
  status_ok resp = true →
  body_error resp = None →
  mime ∉ [py "image/jpeg"; py "image/jpg"; py "image/png"] →
  cover_step session_get cover_url output_fp st
  = (NetState (delete tmp_file (delete (tmp_file ++ py ".part") (files st)))
       (requests st + S k) (slept st ++ seqZ 1 (Z.of_nat k)),
     if endswith (str_lower output_fp) (py ".mp3") then [UnsupportedCover mime] else []).
Proof.
  cbv zeta. intros Hurl Hk Hfail Hget Hs Hb Hmime.
  unfold cover_step. rewrite bool_decide_eq_true_2 by done.
  unfold cover_handling. cbv zeta.
  rewrite (download_pic_success _ _ _ _ _ k resp)
    by (done || lia || (unfold nap_limit; lia)).
  unfold add_cover_2_mp3. cbn [files requests slept].
  destruct (endswith (str_lower output_fp) (py ".mp3")); cbn [negb].
  - rewrite bool_decide_eq_false_2 by done. cbn [negb].
    by rewrite delete_insert_eq.
  - by rewrite delete_insert_eq.
Qed.

Lemma cover_step_unsupported_type_witness :
  @cover_step Reference.library ReferenceOs.tagging_eyed3 ReferenceOs.os_path
    (fun _ _ => GetReturns (Response true (Some (py "image/webp")) [[82; 73]; [70; 70]] None))
    (py "http://host/c.webp?param=1") (py "out/a.mp3")
    (NetState {[ py "out/a.mp3" := py "ID3" ]} 0 [])
  = (NetState {[ py "out/a.mp3" := py "ID3" ]} 1 [], [UnsupportedCover (py "image/webp")]).
Proof.
  refine (eq_trans
            (@cover_step_unsupported_type
               Reference.library ReferenceOs.tagging_eyed3 ReferenceOs.os_path
               (fun _ _ => GetReturns (Response true (Some (py "image/webp"))
                                         [[82; 73]; [70; 70]] None))
               (py "http://host/c.webp?param=1") (py "out/a.mp3")
               (NetState {[ py "out/a.mp3" := py "ID3" ]} 0 []) 0
               (Response true (Some (py "image/webp")) [[82; 73]; [70; 70]] None)
               _ _ _ _ _ _ _) _).
  - discriminate.
  - lia.
  - intros j Hj. lia.
  - reflexivity.
  - reflexivity.
  - reflexivity.
  - by_compute.
  - vm_compute. reflexivity.
Defined.

(** X22: when the download succeeds with an accepted type and the output
    is an [.mp3] that [eyed3] loads, the picture handed to the tag is
    exactly the body that was downloaded, under the type the server
    announced (lower-cased, without parameters); afterwards the audio file
    holds what [eyed3] saved, the temporary files are gone and nothing is
    warned about.  (The output is not the temporary file itself.) *)
Theorem cover_step_embeds_download `{Library} `{Eyed3} `{OsPath}
    (session_get : str → nat → reply) (cover_url output_fp : str) (st : net_state)
    (k : nat) (resp : response) (audio : audio_file) (content : list Z) :
  let tmp_file := cover_tmp_file cover_url output_fp in
  let mime := str_lower (str_strip (split_first 59 (default [] (content_type resp)))) in
  let downloaded :=
    <[tmp_file := mjoin (body resp)]> (delete (tmp_file ++ py ".part") (files st)) in
  cover_url ≠ [] →
  (k < 3)%nat →
  (∀ j : nat, (j < k)%nat →
     is_Some (reply_error (session_get cover_url (requests st + j)%nat))) →
  session_get cover_url (requests st + k)%nat = GetReturns resp →
  status_ok resp = true →
  body_error resp = None →
  endswith (str_lower output_fp) (py ".mp3") = true →
  mime ∈ [py "image/jpeg"; py "image/jpg"; py "image/png"] →
  output_fp ≠ tmp_file →
  eyed3_load output_fp downloaded = inr (Some audio) →
  eyed3_embed audio (mjoin (body resp)) mime = inr content →
  cover_step session_get cover_url output_fp st
  = (NetState
       (<[output_fp := content]>
          (delete tmp_file (delete (tmp_file ++ py ".part") (files st))))
       (requests st + S k) (slept st ++ seqZ 1 (Z.of_nat k)),
     []).
Proof.
  cbv zeta. intros Hurl Hk Hfail Hget Hs Hb Hext Hmime Htmp Hload Hembed.
  unfold cover_step. rewrite bool_decide_eq_true_2 by done.
  unfold cover_handling. cbv zeta.
  rewrite (download_pic_success _ _ _ _ _ k resp)
    by (done || lia || (unfold nap_limit; lia)).
  unfold add_cover_2_mp3. cbn [files requests slept].
  rewrite Hext. cbn [negb]. rewrite bool_decide_eq_true_2 by done. cbn [negb].
  rewrite Hload, lookup_insert_eq, Hembed.
  rewrite delete_insert_ne by done. by rewrite delete_insert_eq.
Qed.

Lemma cover_step_embeds_download_witness :
  @cover_step Reference.library ReferenceOs.tagging_eyed3 ReferenceOs.os_path
    (fun _ n => if decide (n = 2%nat)
                then GetReturns (Response true (Some (py "image/JPEG ; charset=x"))
                                   [[255; 216]; [255; 217]] None)
                else GetReturns (Response false None [] None))
    (py "http://host/c.jpg") (py "out/a.MP3")
    (NetState {[ py "out/a.MP3" := py "ID3" ]} 0 [])
  = (NetState {[ py "out/a.MP3" := [255; 216; 255; 217] ++ py "ID3" ]} 3 [1; 2], []).
Proof.
  refine (eq_trans
            (@cover_step_embeds_download
               Reference.library ReferenceOs.tagging_eyed3 ReferenceOs.os_path
               (fun _ n => if decide (n = 2%nat)
                           then GetReturns (Response true (Some (py "image/JPEG ; charset=x"))
                                              [[255; 216]; [255; 217]] None)
                           else GetReturns (Response false None [] None))
               (py "http://host/c.jpg") (py "out/a.MP3")
               (NetState {[ py "out/a.MP3" := py "ID3" ]} 0 []) 2
               (Response true (Some (py "image/JPEG ; charset=x"))
                  [[255; 216]; [255; 217]] None)
               (py "ID3") ([255; 216; 255; 217] ++ py "ID3")
               _ _ _ _ _ _ _ _ _ _ _) _).
  - discriminate.
  - lia.
  - intros j Hj.
    assert (j = 0%nat ∨ j = 1%nat) as [-> | ->] by lia; by eexists.
  - reflexivity.
  - reflexivity.
  - reflexivity.
  - vm_compute. reflexivity.
  - by_compute.
  - vm_compute. discriminate.
  - vm_compute. reflexivity.
  - vm_compute. reflexivity.
  - vm_compute. reflexivity.
Defined.

(** X23: a cover that cannot be downloaded is not fatal and costs three
    requests and two naps (exponents 1 and 2): the stage warns with the
    [RuntimeError] of the last attempt, and every file other than the
    temporary file and its [.part] companion, the audio file included, is
    as it was. *)
Theorem cover_step_download_fails `{Library} `{Eyed3} `{OsPath}
    (session_get : str → nat → reply) (cover_url output_fp : str) (st : net_state) :
  let tmp_file := cover_tmp_file cover_url output_fp in
  cover_url ≠ [] →
  (∀ j : nat, (j < 3)%nat →
     is_Some (reply_error (session_get cover_url (requests st + j)%nat))) →
  ∃ e st',
    reply_error (session_get cover_url (requests st + 2)%nat) = Some e ∧
    cover_step session_get cover_url output_fp st
    = (st', [CoverFailed (RuntimeError e)]) ∧
    requests st' = (requests st + 3)%nat ∧
    slept st' = slept st ++ [1; 2] ∧
    ∀ p, p ≠ tmp_file → p ≠ tmp_file ++ py ".part" → files st' !! p = files st !! p.
Proof.
  cbv zeta. intros Hurl Hfail.
  destruct (download_pic_failure session_get cover_url
              (cover_tmp_file cover_url output_fp) 3 st)
    as (e & st1 & He & Hdl & Hreq & Hslept & Hfiles).
  { unfold nap_limit. lia. }
  { intros j Hj. apply Hfail. lia. }
  replace (requests st + Z.to_nat 3 - 1)%nat with (requests st + 2)%nat in He by lia.
  replace (requests st + Z.to_nat 3)%nat with (requests st + 3)%nat in Hreq by lia.
  change (seqZ 1 (3 - 1)) with [1; 2] in Hslept.
  exists e. eexists. split; [exact He|]. split.
  { unfold cover_step. rewrite bool_decide_eq_true_2 by done.
    unfold cover_handling. cbv zeta. rewrite Hdl. reflexivity. }
  cbn [files requests slept]. split; [exact Hreq|]. split; [exact Hslept|].
  intros p Hp Hpart. rewrite lookup_delete_ne by done. by apply Hfiles.
Qed.

Lemma cover_step_download_fails_witness :
  ∃ e st',
    reply_error (GetRaises ConnectionError) = Some e ∧
    @cover_step Reference.library ReferenceOs.eyed3 ReferenceOs.os_path
      (fun _ _ => GetRaises ConnectionError) (py "http://host/c.jpg") (py "out/a.mp3")
      (NetState {[ py "out/a.mp3" := py "ID3" ]} 0 [])
    = (st', [CoverFailed (RuntimeError e)]) ∧
    requests st' = 3%nat ∧
    slept st' = [1; 2] ∧
    ∀ p, p ≠ @cover_tmp_file ReferenceOs.os_path (py "http://host/c.jpg") (py "out/a.mp3") →
         p ≠ @cover_tmp_file ReferenceOs.os_path (py "http://host/c.jpg") (py "out/a.mp3")
               ++ py ".part" →
         files st' !! p = ({[ py "out/a.mp3" := py "ID3" ]} : gmap str (list Z)) !! p.
Proof.
  refine (@cover_step_download_fails
            Reference.library ReferenceOs.eyed3 ReferenceOs.os_path
            (fun _ _ => GetRaises ConnectionError) (py "http://host/c.jpg") (py "out/a.mp3")
            (NetState {[ py "out/a.mp3" := py "ID3" ]} 0 []) _ _).
  - discriminate.
  - intros j _. by eexists.
Defined.
